(** * panopto-scraper: a shallow embedding of [panopto.py]

  The script mirrors lecture recordings from Panopto into Google Drive.
  This development embeds its functions as Rocq definitions and proves
  the properties its documentation states about them.

  Layout:
  - [PyStr]: the two [str] operations the script uses ([in], [replace]);
  - [Py]: outcomes of a Python call (return, raise, or a loop cut short);
  - [Enumerator]: [get_folder_videos] and the folder filter;
  - [Negotiator]: [negotiate_saml];
  - [TokenStore]: [google_drive_auth];
  - [Retrying]: the [@retry] decorator;
  - [Reconciler]: [create_folder_if_not_exists], [check_if_file_exists];
  - [SyncDriver]: the [__main__] loops;
  - [Taxonomy]: the failure classes the documentation speaks of;
  - [Sample]: concrete surroundings used in the examples. *)

From Stdlib Require Import ZArith Ascii.
From stdpp Require Import base option list gmap strings pretty.

Open Scope Z_scope.

(* ===================================================================== *)
(** * Python string operations *)
(* ===================================================================== *)

Module PyStr.

(** [needle in s]: [needle] occurs in [s] as a contiguous substring. *)
Fixpoint contains (needle s : string) : bool :=
  String.prefix needle s ||
  match s with
  | EmptyString => false
  | String _ t => contains needle t
  end.

(** Scanning loop of [str.replace] for a non-empty [old]: occurrences are
    found from the left and do not overlap.  [skip] counts the characters
    of the current occurrence that are still to be dropped. *)
Fixpoint replace_from (old new : string) (skip : nat) (s : string) : string :=
  match s with
  | EmptyString => EmptyString
  | String c t =>
      match skip with
      | S k => replace_from old new k t
      | O =>
          if String.prefix old s
          then new +:+ replace_from old new (Nat.pred (String.length old)) t
          else String c (replace_from old new 0 t)
      end
  end.

(** [str.replace] with an empty [old] puts [new] before every character
    and at the end. *)
Fixpoint interleave (new s : string) : string :=
  match s with
  | EmptyString => new
  | String c t => new +:+ String c (interleave new t)
  end.

(** [s.replace(old, new)] *)
Definition replace (old new s : string) : string :=
  match old with
  | EmptyString => interleave new s
  | String _ _ => replace_from old new 0 s
  end.

End PyStr.

(* ===================================================================== *)
(** * Outcomes of a Python call *)
(* ===================================================================== *)

Module Py.

(** The exceptions that the modelled code can raise. *)
Inductive exn : Type :=
| AssertionError (msg : string)
| TypeError
| KeyError (key : string)
| NameError (name : string)
| ValueError
| HttpError
| RefreshError
| FileNotFoundError (path : string)
| RequestException (kind : string).

(** A call returns a value, raises, or -- for the [while True] loop of the
    retry decorator, which is run with a step budget -- is cut short. *)
Inductive outcome (A : Type) : Type :=
| Return (a : A)
| Raise (e : exn)
| OutOfFuel.
Global Arguments Return {A} a.
Global Arguments Raise {A} e.
Global Arguments OutOfFuel {A}.

(** State-and-exception monad over a state [S]. *)
Definition M (S A : Type) : Type := S -> outcome A * S.

Definition ret {S A} (a : A) : M S A := fun s => (Return a, s).
Definition raise {S A} (e : exn) : M S A := fun s => (Raise e, s).
Definition bind {S A B} (m : M S A) (k : A -> M S B) : M S B :=
  fun s =>
    match m s with
    | (Return a, s') => k a s'
    | (Raise e, s') => (Raise e, s')
    | (OutOfFuel, s') => (OutOfFuel, s')
    end.
Definition get {S} : M S S := fun s => (Return s, s).
Definition modify {S} (f : S -> S) : M S unit := fun s => (Return tt, f s).

(** [assert cond, msg] *)
Definition py_assert {S} (cond : bool) (msg : string) : M S unit :=
  if cond then ret tt else raise (AssertionError msg).

(** [for x in xs: body(x)] *)
Fixpoint for_each {S A} (xs : list A) (body : A -> M S unit) : M S unit :=
  match xs with
  | [] => ret tt
  | x :: rest => bind (body x) (fun _ => for_each rest body)
  end.

Declare Scope py_scope.
Delimit Scope py_scope with py.
Notation "x <- m ;; k" := (bind m (fun x => k))
  (at level 100, m at next level, right associativity) : py_scope.
Notation "m ;;; k" := (bind m (fun _ => k))
  (at level 100, right associativity) : py_scope.

End Py.
Import Py.

(* ===================================================================== *)
(** * Folder/video enumeration *)
(* ===================================================================== *)

Module Enumerator.

(** If True, only save videos from Panopto folders that contain 'CSE' in
    their name. *)
Definition ONLY_SAVE_CSE_VIDEOS : bool := true.

(** One element of [response.json()['d']['Results']]. *)
Record Session := { IosVideoUrl : string; SessionName : string }.

(** One element of the folder listing. *)
Record Folder := { Id : string; Name : string; SessionCount : Z }.

(** What [client.post(SESSIONS_URL, ...)] answers: the status code and,
    when the body is JSON of the expected shape, its [d.Results]; when it
    is not, [body_error] is the exception that reading it raises (a
    [ValueError] for a body that is no JSON, a [KeyError] or [TypeError]
    for JSON of another shape). *)
Record Response := {
  status_code : Z;
  results : option (list Session);
  body_error : exn
}.

(** The authenticated session as this component uses it: the answer of the
    session-listing endpoint to a POST with the given [maxResults] and
    [folderID]. *)
Definition Client : Type := Z -> string -> Response.

(** The tuple built for one video by the list comprehension of
    [get_folder_videos]. *)
Definition video_info_of (video : Session) : string * string :=
  (PyStr.replace ".hls/master.m3u8" ".mp4" (IosVideoUrl video),
   SessionName video).

(** [get_folder_videos(folder_id, video_limit, client)]; the inner [option]
    is Python's [None]. *)
Definition get_folder_videos (folder_id : string) (video_limit : Z)
    (client : Client) : outcome (option (list (string * string))) :=
  let response := client video_limit folder_id in
  if negb (status_code response =? 200) then Return None
  else
    match results response with
    | None => Raise (body_error response)
    | Some rs => Return (Some (map video_info_of rs))
    end.

(** The condition of the [if] at the head of the folder loop, with the
    module constant as an argument. *)
Definition folder_selected_with (only_cse : bool) (folder : Folder) : bool :=
  (0 <? SessionCount folder) &&
  (negb only_cse || PyStr.contains "CSE" (Name folder)).

Definition folder_selected : Folder -> bool :=
  folder_selected_with ONLY_SAVE_CSE_VIDEOS.

End Enumerator.

(* ===================================================================== *)
(** * SAML negotiation *)
(* ===================================================================== *)

Module Negotiator.

(** An element of a parsed page, in document order. *)
Record Tag := { tag_name : string; attrs : gmap string string }.

(** What a server answers: the final URL, the cookies it sets and the
    parsed body. *)
Record Page := {
  url : string;
  set_cookies : gmap string string;
  text : list Tag
}.

(** The remote side: the answer to a GET or a POST of form data, given the
    cookies the client sends along. *)
Record Web := {
  http_get : string -> gmap string string -> Page;
  http_post :
    string -> list (string * option string) -> gmap string string -> Page
}.

(** A [requests] session is its cookie jar; every answer adds its cookies. *)
Definition client_get (web : Web) (u : string)
  : M (gmap string string) Page :=
  fun jar => let r := http_get web u jar in (Return r, set_cookies r ∪ jar).

Definition client_post (web : Web) (u : string)
    (data : list (string * option string))
  : M (gmap string string) Page :=
  fun jar =>
    let r := http_post web u data jar in (Return r, set_cookies r ∪ jar).

(** [key in cookie_dict] *)
Definition has_cookie (cookie_dict : gmap string string) (key : string)
  : bool :=
  bool_decide (is_Some (cookie_dict !! key)).

(** [soup.find(tag, {attr: value})]: the first such element, or [None]. *)
Definition soup_find (tag attr value : string) (soup : list Tag)
  : option Tag :=
  head (filter (fun t => tag_name t = tag /\ attrs t !! attr = Some value)
               soup).

(** [found[key]] for the result of [soup.find]: subscripting [None] is a
    [TypeError], a missing attribute a [KeyError].  The [except TypeError]
    around it logs and raises the exception again. *)
Definition subscript {S} (found : option Tag) (key : string) : M S string :=
  match found with
  | None => raise TypeError
  | Some t =>
      match attrs t !! key with
      | None => raise (KeyError key)
      | Some v => ret v
      end
  end.

Definition CANVAS_SAML_LOGIN : string := "https://canvas.uw.edu/login/saml/83".
Definition CANVAS_SAML : string := "https://canvas.uw.edu/login/saml".
Definition PANOPTO_LOGIN : string :=
  "https://uw.hosted.panopto.com/Panopto/Pages/Auth/Login.aspx?instance=UWNetid&ReturnUrl=https%3a%2f%2fuw.hosted.panopto.com%2fPanopto%2fPages%2fHome.aspx".

(** Body of [negotiate_saml] over the session it creates. *)
Definition negotiate_saml_session (USERNAME PASSWORD : option string)
    (web : Web) : M (gmap string string) unit :=
  (saml_request <- client_get web CANVAS_SAML_LOGIN ;;
   cookie_dict <- get ;;
   py_assert (has_cookie cookie_dict "_csrf_token") "Missing cookies." ;;;
   py_assert (has_cookie cookie_dict "bbbbbbbbbbbbbbb") "Missing cookies." ;;;
   py_assert (has_cookie cookie_dict "JSESSIONID") "Missing cookies." ;;;
   let payload := [("j_username", USERNAME);
                   ("j_password", PASSWORD);
                   ("_eventId_proceed", Some "Sign+in")] in
   saml_response <- client_post web (url saml_request) payload ;;
   let soup := text saml_response in
   saml_response_value <-
     subscript (soup_find "input" "name" "SAMLResponse" soup) "value" ;;
   let payload := [("SAMLResponse", Some saml_response_value)] in
   saml_end <- client_post web CANVAS_SAML payload ;;
   panopto_request <- client_get web PANOPTO_LOGIN ;;
   cookie_dict <- get ;;
   py_assert (has_cookie cookie_dict ".ASPXAUTH") "Missing cookie.")%py.

(** [negotiate_saml()]: starts from a fresh session and returns it. *)
Definition negotiate_saml (USERNAME PASSWORD : option string) (web : Web)
  : outcome (gmap string string) :=
  match negotiate_saml_session USERNAME PASSWORD web ∅ with
  | (Return _, client) => Return client
  | (Raise e, _) => Raise e
  | (OutOfFuel, _) => OutOfFuel
  end.

End Negotiator.

(* ===================================================================== *)
(** * Google Drive credentials *)
(* ===================================================================== *)

Module TokenStore.

(** The attributes of a credentials object that the script reads. *)
Record Credentials := {
  token : string;
  valid : bool;
  expired : bool;
  refresh_token : option string
}.

(** The working directory: the content of [token.pickle] when it exists,
    and every [pickle.dump] made into it, oldest first. *)
Record Disk := {
  token_pickle : option Credentials;
  dumps : list Credentials
}.

(** The authorisation server: what [creds.refresh(Request())] leaves in
    [creds], and what the browser flow returns. *)
Record OAuth := {
  refresh : Credentials -> outcome Credentials;
  run_local_server : outcome Credentials
}.

(** Truth value of [creds.refresh_token]. *)
Definition truthy (s : option string) : bool :=
  match s with
  | None | Some EmptyString => false
  | Some (String _ _) => true
  end.

Definition lift {A} (o : outcome A) : M Disk A := fun d => (o, d).

(** [with open('token.pickle', 'wb') as token: pickle.dump(creds, token)] *)
Definition pickle_dump (creds : Credentials) : M Disk unit :=
  modify (fun d =>
    {| token_pickle := Some creds; dumps := dumps d ++ [creds] |}).

(** [google_drive_auth()] *)
Definition google_drive_auth (oauth : OAuth) : M Disk Credentials :=
  (disk <- get ;;
   (* creds = None, replaced by the unpickled file when it exists *)
   let creds := token_pickle disk in
   match creds with
   | Some c =>
       if negb (valid c) then
         creds' <- (if expired c && truthy (refresh_token c)
                    then lift (refresh oauth c)
                    else lift (run_local_server oauth)) ;;
         pickle_dump creds' ;;;
         ret creds'
       else ret c
   | None =>
       creds' <- lift (run_local_server oauth) ;;
       pickle_dump creds' ;;;
       ret creds'
   end)%py.

End TokenStore.

(* ===================================================================== *)
(** * The state the synchronisation runs in *)
(* ===================================================================== *)

Module Drive.

Definition FOLDER_MIME : string := "application/vnd.google-apps.folder".

(** A file or folder kept by Google Drive. *)
Record File := {
  file_id : string;
  file_name : string;
  mimeType : string;
  parents : list string;
  media : option string
}.

(** A folder, and an uploaded video. *)
Definition folder_file (i n : string) (ps : list string) : File :=
  {| file_id := i; file_name := n; mimeType := FOLDER_MIME; parents := ps;
     media := None |}.

Definition video_file (i n : string) (ps : list string) (m : string) : File :=
  {| file_id := i; file_name := n; mimeType := "video/mp4"; parents := ps;
     media := Some m |}.

(** The two searches the script sends as [q].  The names put into them
    are taken to be free of double quotes, so that the formatted text is
    the search it is meant to be. *)
Inductive Query : Type :=
| FolderNamed (name : string)
    (* mimeType="application/vnd.google-apps.folder" and name="{}" *)
| InParentNamed (parent name : string).
    (* "{}" in parents and name="{}" *)

Definition matches (q : Query) (f : File) : Prop :=
  match q with
  | FolderNamed n => mimeType f = FOLDER_MIME /\ file_name f = n
  | InParentNamed p n => p ∈ parents f /\ file_name f = n
  end.

#[global] Instance matches_dec q f : Decision (matches q f).
Proof. destruct q; simpl; apply _. Defined.

(** Everything outside the script that a run reads. *)
Record Outside := {
  (* the id Drive gives to the next created file, given what it holds *)
  new_id : list File -> string;
  (* the session-listing endpoint, seen through the authenticated session *)
  sessions : Enumerator.Client;
  (* the bytes behind a video URL *)
  content : string -> string;
  (* the exception [requests.get] raises for a URL it cannot fetch *)
  download_error : string -> option exn
}.

(** Everything a run changes. *)
Record World := {
  (* the files in Drive, in the order a listing reports them *)
  drive_files : list File;
  (* for the coming Drive requests, in order: does the request fail? *)
  drive_faults : list bool;
  (* arguments of [time.sleep] made by the retry decorator (ms), oldest
     first *)
  slept : list Z;
  (* URLs fetched with [requests.get], oldest first *)
  fetched : list string;
  (* the module-level variable [folder], unbound until the folder loop
     assigns it *)
  folder : option Enumerator.Folder
}.

Definition with_files (fs : list File) (w : World) : World :=
  {| drive_files := fs; drive_faults := drive_faults w; slept := slept w;
     fetched := fetched w; folder := folder w |}.
Definition with_faults (l : list bool) (w : World) : World :=
  {| drive_files := drive_files w; drive_faults := l; slept := slept w;
     fetched := fetched w; folder := folder w |}.
Definition with_slept (l : list Z) (w : World) : World :=
  {| drive_files := drive_files w; drive_faults := drive_faults w; slept := l;
     fetched := fetched w; folder := folder w |}.
Definition with_fetched (l : list string) (w : World) : World :=
  {| drive_files := drive_files w; drive_faults := drive_faults w;
     slept := slept w; fetched := l; folder := folder w |}.
Definition with_folder (f : option Enumerator.Folder) (w : World) : World :=
  {| drive_files := drive_files w; drive_faults := drive_faults w;
     slept := slept w; fetched := fetched w; folder := f |}.

(** [request.execute()]: the request fails with an [HttpError] and changes
    nothing when the fault schedule says so, and is served otherwise. *)
Definition execute {A} (request : list File -> A * list File) : M World A :=
  fun w =>
    match drive_faults w with
    | true :: later => (Raise HttpError, with_faults later w)
    | false :: later =>
        let '(a, fs) := request (drive_files w) in
        (Return a, with_files fs (with_faults later w))
    | [] =>
        let '(a, fs) := request (drive_files w) in
        (Return a, with_files fs w)
    end.

(** [drive_service.files().list(q=..., fields='files(id)').execute()]:
    the value of [response['files']], as the list of the ids. *)
Definition files_list (q : Query) : M World (list string) :=
  execute (fun fs => (file_id <$> filter (matches q) fs, fs)).

(** [drive_service.files().create(body=..., fields='id').execute()]:
    the value of [response.get('id')]. *)
Definition files_create (out : Outside) (name mime : string)
    (parents : list string) (media : option string) : M World string :=
  execute (fun fs =>
    let i := new_id out fs in
    (i, fs ++ [ {| file_id := i; file_name := name; mimeType := mime;
                   parents := parents; media := media |} ])).

(** [time.sleep(ms / 1000.0)] *)
Definition sleep (ms : Z) : M World unit :=
  modify (fun w => with_slept (slept w ++ [ms]) w).

(** [requests.get(video_url).content]: raises for a URL that cannot be
    fetched and yields the bytes otherwise. *)
Definition requests_get (out : Outside) (video_url : string)
  : M World string :=
  fun w =>
    match download_error out video_url with
    | Some e => (Raise e, w)
    | None => (Return (content out video_url),
               with_fetched (fetched w ++ [video_url]) w)
    end.

End Drive.

(* ===================================================================== *)
(** * The retry decorator *)
(* ===================================================================== *)

Module Retrying.
Import Drive.

(** Modelled from the spec: the [retry] decorator comes from the
    [retrying] package, whose code is not part of the repository; only its
    two arguments are in the source.  The wait before the next attempt
    doubles with every failed attempt and is held at the maximum
    ([multiplier * 2 ** previous_attempt_number], capped). *)
Definition exponential_sleep (wait_exponential_multiplier
    wait_exponential_max previous_attempt_number : Z) : Z :=
  let exp := 2 ^ previous_attempt_number in
  let result := wait_exponential_multiplier * exp in
  let result :=
    if wait_exponential_max <? result then wait_exponential_max else result in
  if result <? 0 then 0 else result.

(** Modelled from the spec: the loop of the [retrying] package around the
    decorated function.  Every exception is answered by a sleep and another
    attempt; no attempt count or total delay ends the loop.  [fuel] bounds
    the attempts made in the model only. *)
Fixpoint retry_call {A} (multiplier max : Z) (fuel : nat)
    (attempt_number : Z) (fn : M World A) : M World A :=
  match fuel with
  | O => fun w => (OutOfFuel, w)
  | S fuel' =>
      fun w =>
        match fn w with
        | (Return a, w') => (Return a, w')
        | (Raise _, w') =>
            bind (sleep (exponential_sleep multiplier max attempt_number))
              (fun _ =>
                 retry_call multiplier max fuel' (attempt_number + 1) fn)
              w'
        | (OutOfFuel, w') => (OutOfFuel, w')
        end
  end.

(** The delays after [n] successive failed attempts, the first of which is
    attempt number [k]. *)
Definition waits (multiplier max : Z) (k : Z) (n : nat) : list Z :=
  (fun i => exponential_sleep multiplier max (k + Z.of_nat i)) <$> seq 0 n.

(** [@retry(wait_exponential_multiplier=..., wait_exponential_max=...)] *)
Definition retry {A} (wait_exponential_multiplier wait_exponential_max : Z)
    (fuel : nat) (fn : M World A) : M World A :=
  retry_call wait_exponential_multiplier wait_exponential_max fuel 1 fn.

End Retrying.

(* ===================================================================== *)
(** * Reconciling with Drive *)
(* ===================================================================== *)

Module Reconciler.
Import Drive.

(** The undecorated body of [create_folder_if_not_exists]: one attempt. *)
Definition create_folder_if_not_exists_once (out : Outside)
    (folder_name : string) (parent_folder : option string)
  : M World string :=
  (response <- files_list (FolderNamed folder_name) ;;
   match response with
   | [] =>
       let file_metadata_parents :=
         match parent_folder with
         | Some p => [p]
         | None => []
         end in
       folder_id <-
         files_create out folder_name FOLDER_MIME file_metadata_parents None ;;
       (* logging.info('Created {}; Folder ID: {}'
                       .format(folder['Name'], folder_id)) *)
       w <- get ;;
       match folder w with
       | None => raise (NameError "folder")
       | Some _ => ret folder_id
       end
   | first :: _ => ret first
   end)%py.

(** [create_folder_if_not_exists] as decorated. *)
Definition create_folder_if_not_exists (out : Outside) (fuel : nat)
    (folder_name : string) (parent_folder : option string)
  : M World string :=
  Retrying.retry 1000 10000 fuel
    (create_folder_if_not_exists_once out folder_name parent_folder).

(** ["{}".format(parent_folder)] *)
Definition format_parent (parent_folder : option string) : string :=
  match parent_folder with
  | Some p => p
  | None => "None"
  end.

(** The undecorated body of [check_if_file_exists]: one attempt. *)
Definition check_if_file_exists_once (file_name : string)
    (parent_folder : option string) : M World bool :=
  (response <-
     files_list (InParentNamed (format_parent parent_folder)
                               (file_name +:+ ".mp4")) ;;
   match response with
   | [] => ret false
   | _ :: _ => ret true
   end)%py.

(** [check_if_file_exists] as decorated. *)
Definition check_if_file_exists (fuel : nat) (file_name : string)
    (parent_folder : option string) : M World bool :=
  Retrying.retry 1000 10000 fuel
    (check_if_file_exists_once file_name parent_folder).

End Reconciler.

(* ===================================================================== *)
(** * The driver *)
(* ===================================================================== *)

Module SyncDriver.
Import Drive Reconciler.

(** The name of the Google Drive folder to save the videos under. *)
Definition GOOGLE_DRIVE_FOLDER_NAME : string := "Panopto Videos".

Definition lift {A} (o : outcome A) : M World A := fun w => (o, w).

(** Body of [for video_url, video_name in videos]. *)
Definition sync_video (out : Outside) (fuel : nat) (folder_id : string)
    (video : string * string) : M World unit :=
  (let '(video_url, video_name) := video in
   file_exists <- check_if_file_exists fuel video_name (Some folder_id) ;;
   if file_exists : bool then ret tt
   else
     g <- requests_get out video_url ;;
     _ <- files_create out (video_name +:+ ".mp4") "video/mp4" [folder_id]
            (Some g) ;;
     ret tt)%py.

(** Body of [for folder in folders]; the loop assigns the module-level
    variable [folder] first. *)
Definition sync_folder (out : Outside) (fuel : nat)
    (panopto_folder_id : string) (f : Enumerator.Folder) : M World unit :=
  (modify (with_folder (Some f)) ;;;
   if Enumerator.folder_selected f then
     videos <- lift (Enumerator.get_folder_videos (Enumerator.Id f) 50
                       (sessions out)) ;;
     match videos with
     | None => ret tt (* continue *)
     | Some videos =>
         folder_id <- create_folder_if_not_exists out fuel
                        (Enumerator.Name f) (Some panopto_folder_id) ;;
         for_each videos (sync_video out fuel folder_id)
     end
   else ret tt)%py.

(** The [__main__] block from the creation of the top-level folder on,
    given the folder listing Panopto answered. *)
Definition main (out : Outside) (fuel : nat)
    (folders : list Enumerator.Folder) : M World unit :=
  (panopto_folder_id <-
     create_folder_if_not_exists out fuel GOOGLE_DRIVE_FOLDER_NAME None ;;
   for_each folders (sync_folder out fuel panopto_folder_id))%py.

End SyncDriver.

(* ===================================================================== *)
(** * Failure classes of the documentation *)
(* ===================================================================== *)

Module Taxonomy.

(** The documentation names failures by class; the script raises Python's
    built-in exceptions.  An absent cookie trips an [assert]; a page
    without the expected form field makes the subscript of the parse
    result fail. *)
Inductive failure_class : Type :=
| AuthenticationError
| CredentialError.

Definition failure_class_of (e : exn) : option failure_class :=
  match e with
  | AssertionError _ => Some AuthenticationError
  | TypeError | KeyError _ => Some CredentialError
  | _ => None
  end.

Definition fails_with {A} (c : failure_class) (o : outcome A) : Prop :=
  exists e, o = Raise e /\ failure_class_of e = Some c.

End Taxonomy.

(* ===================================================================== *)
(** * Sample data *)
(* ===================================================================== *)

Module Sample.
Import Drive.

(** [requests.get] refuses a URL that names no scheme. *)
Definition missing_schema (u : string) : option exn :=
  if String.prefix "https://" u || String.prefix "http://" u then None
  else Some (RequestException "MissingSchema").

(** A surrounding in which Drive numbers the files it creates, every
    folder lists no videos and a URL's bytes are described by the URL. *)
Definition outside : Outside := {|
  new_id := fun fs => "id-" +:+ pretty (length fs);
  sessions := fun _ _ =>
    {| Enumerator.status_code := 200; Enumerator.results := Some [];
       Enumerator.body_error := ValueError |};
  content := fun u => "bytes of " +:+ u;
  download_error := missing_schema
|}.

(** A listing endpoint that refuses the folder [ta] and lists nothing for
    the others. *)
Definition partial_sessions : Enumerator.Client :=
  fun _ folder_id =>
    if String.eqb folder_id "ta"
    then {| Enumerator.status_code := 500; Enumerator.results := None;
            Enumerator.body_error := ValueError |}
    else {| Enumerator.status_code := 200; Enumerator.results := Some [];
            Enumerator.body_error := ValueError |}.

Definition partial_outside : Outside := {|
  new_id := new_id outside;
  sessions := partial_sessions;
  content := content outside;
  download_error := download_error outside
|}.

(** An identity provider and a Panopto that accept the login. *)
Definition web : Negotiator.Web := {|
  Negotiator.http_get := fun u _ =>
    if String.eqb u Negotiator.CANVAS_SAML_LOGIN
    then {| Negotiator.url := "https://idp.u.washington.edu/idp/sso";
            Negotiator.set_cookies :=
              {[ "_csrf_token" := "c"; "bbbbbbbbbbbbbbb" := "b";
                 "JSESSIONID" := "j" ]};
            Negotiator.text := [] |}
    else {| Negotiator.url := u;
            Negotiator.set_cookies := {[ ".ASPXAUTH" := "a" ]};
            Negotiator.text := [] |};
  Negotiator.http_post := fun u _ _ =>
    {| Negotiator.url := u;
       Negotiator.set_cookies := ∅;
       Negotiator.text :=
         if String.eqb u Negotiator.CANVAS_SAML then []
         else [ {| Negotiator.tag_name := "input";
                   Negotiator.attrs :=
                     {[ "name" := "SAMLResponse";
                        "value" := "assertion" ]} |} ] |}
|}.

(** The state at the start of a run against an empty Drive. *)
Definition fresh : World := {|
  drive_files := []; drive_faults := []; slept := []; fetched := [];
  folder := None
|}.

End Sample.

(* ===================================================================== *)
(** * What a finished run leaves in Drive *)
(* ===================================================================== *)

Module Mirror.
Import Drive.

(** The Drive folder [folder_id] holds an item called [<video_name>.mp4]. *)
Definition stored (folder_id video_name : string) (w : World) : Prop :=
  Exists (matches (InParentNamed folder_id (video_name +:+ ".mp4")))
    (drive_files w).

(** A Panopto folder is mirrored in Drive: when it is selected and its
    listing was read, Drive has a folder of its name and the first such
    folder holds an item for every listed video.  Nothing is asked for a
    folder that is not selected or whose listing was refused; a folder
    whose listing cannot be read is not mirrored. *)
Definition mirrored (out : Outside) (f : Enumerator.Folder) (w : World)
  : Prop :=
  if Enumerator.folder_selected f then
    match Enumerator.get_folder_videos (Enumerator.Id f) 50 (sessions out)
    with
    | Return (Some videos) =>
        exists d rest,
          filter (matches (FolderNamed (Enumerator.Name f))) (drive_files w)
          = d :: rest /\
          Forall (fun video => stored (file_id d) video.2 w) videos
    | Return None => True
    | _ => False
    end
  else True.

End Mirror.

(* ===================================================================== *)
(** * A course with two recordings *)
(* ===================================================================== *)

Module Scenario.
Import Drive.

Definition cse143 : Enumerator.Folder :=
  {| Enumerator.Id := "f1"; Enumerator.Name := "CSE 143 Au21";
     Enumerator.SessionCount := 2 |}.

Definition lectures : list Enumerator.Session :=
  [ {| Enumerator.IosVideoUrl := "https://cdn/1.hls/master.m3u8";
       Enumerator.SessionName := "Lecture 1" |};
    {| Enumerator.IosVideoUrl := "https://cdn/2.hls/master.m3u8";
       Enumerator.SessionName := "Lecture 2" |} ].

(** Panopto lists the two recordings for every folder. *)
Definition outside : Outside := {|
  new_id := new_id Sample.outside;
  sessions := fun _ _ =>
    {| Enumerator.status_code := 200;
       Enumerator.results := Some lectures;
       Enumerator.body_error := ValueError |};
  content := content Sample.outside;
  download_error := download_error Sample.outside
|}.

(** Panopto answers 200 with the JSON body [{}], which has no [d]. *)
Definition unreadable : Outside := {|
  new_id := new_id Sample.outside;
  sessions := fun _ _ =>
    {| Enumerator.status_code := 200; Enumerator.results := None;
       Enumerator.body_error := KeyError "d" |};
  content := content Sample.outside;
  download_error := download_error Sample.outside
|}.

(** A Drive that holds the recording [Lecture 1] in the folder [dst]. *)
Definition half_done : World :=
  with_files [video_file "id-0" "Lecture 1.mp4" ["dst"] "bytes"]
    Sample.fresh.

End Scenario.

(* ===================================================================== *)
(** * Facts about the string operations *)
(* ===================================================================== *)

Section PyStrFacts.
Import PyStr.

Lemma append_empty_r s : s +:+ "" = s.
Proof.
  induction s as [|c s IH]; [done|].
  change (String c (s +:+ "") = String c s). by f_equal.
Qed.

Lemma prefix_nil s : String.prefix "" s = true.
Proof. by destruct s. Qed.

Lemma prefix_cons a p b s :
  String.prefix (String a p) (String b s) = true <-> a = b /\ String.prefix p s = true.
Proof.
  simpl. destruct (ascii_dec a b); split; try tauto; try congruence.
Qed.

Lemma prefix_app p r : String.prefix p (p +:+ r) = true.
Proof.
  induction p as [|a p IH]; [apply prefix_nil|].
  simpl. destruct (ascii_dec a a); [done|congruence].
Qed.

Lemma prefix_inv p s : String.prefix p s = true -> exists r, s = p +:+ r.
Proof.
  revert s. induction p as [|a p IH]; intros s H.
  - by exists s.
  - destruct s as [|b s]; [done|].
    apply prefix_cons in H as [-> H].
    destruct (IH _ H) as [r ->]. by exists r.
Qed.

Lemma contains_occurs needle s :
  contains needle s = true <->
  exists pre post, s = pre +:+ needle +:+ post.
Proof.
  split.
  - induction s as [|c s IH]; cbn [contains]; intros H.
    + apply orb_true_iff in H as [H|H]; [|done].
      apply prefix_inv in H as [r ->]. by exists "", r.
    + apply orb_true_iff in H as [H|H].
      * apply prefix_inv in H as [r Hr]. exists "", r. by rewrite Hr.
      * destruct (IH H) as (pre & post & ->). by exists (String c pre), post.
  - intros (pre & post & ->).
    induction pre as [|c pre IH].
    + change ("" +:+ needle +:+ post) with (needle +:+ post).
      destruct (needle +:+ post) eqn:E; cbn [contains]; rewrite <- E;
        by rewrite prefix_app.
    + change (String c pre +:+ needle +:+ post)
        with (String c (pre +:+ needle +:+ post)).
      cbn [contains]. rewrite IH. apply orb_true_r.
Qed.

Lemma contains_cons_false needle c s :
  contains needle (String c s) = false ->
  String.prefix needle (String c s) = false /\ contains needle s = false.
Proof. cbn [contains]. intros H. by apply orb_false_iff in H. Qed.

Lemma replace_from_skip old new p r :
  replace_from old new (String.length p) (p +:+ r) = replace_from old new 0 r.
Proof.
  induction p as [|c p IH]; simpl; [done|]. apply IH.
Qed.

Lemma replace_from_match old new a r :
  replace_from (String a old) new 0 (String a old +:+ r)
  = new +:+ replace_from (String a old) new 0 r.
Proof.
  change (String a old +:+ r) with (String a (old +:+ r)).
  cbn [replace_from]. 
  change (String a (old +:+ r)) with (String a old +:+ r).
  rewrite prefix_app. f_equal. simpl. apply replace_from_skip.
Qed.

Lemma replace_from_no_match old new c t :
  String.prefix old (String c t) = false ->
  replace_from old new 0 (String c t) = String c (replace_from old new 0 t).
Proof. intros H. cbn [replace_from]. by rewrite H. Qed.

Lemma replace_from_absent old new s :
  contains old s = false -> replace_from old new 0 s = s.
Proof.
  induction s as [|c s IH]; [done|].
  intros [H1 H2]%contains_cons_false.
  rewrite replace_from_no_match by done. by rewrite IH.
Qed.

End PyStrFacts.

(* ===================================================================== *)
(** * Properties of the enumeration *)
(* ===================================================================== *)

Section EnumeratorFacts.
Import PyStr Enumerator.

Local Abbreviation HLS := ".hls/master.m3u8" (only parsing).

(** The pattern cannot overlap itself: an occurrence that starts inside a
    non-empty [base] of [base ++ HLS] lies within [base]. *)
Lemma hls_no_straddle c base :
  String.prefix HLS (String c base +:+ HLS) = true ->
  String.prefix HLS (String c base) = true.
Proof.
  intros H.
  change (String c base +:+ HLS) with (String c (base +:+ HLS)) in H.
  apply prefix_cons in H as [<- H]. apply prefix_cons. split; [done|].
  do 15 (destruct base as [|? base];
         [vm_compute in H; discriminate H|];
         change (String ?a base +:+ ?p) with (String a (base +:+ p)) in H;
         apply prefix_cons in H as [<- H]; apply prefix_cons; split; [done|]).
  apply prefix_nil.
Qed.

Lemma replace_hls_suffix new base :
  contains HLS base = false ->
  replace HLS new (base +:+ HLS) = base +:+ new.
Proof.
  change (replace HLS new) with (replace_from HLS new 0).
  induction base as [|c base IH]; intros H.
  - change ("" +:+ HLS) with (HLS +:+ "").
    rewrite replace_from_match. apply append_empty_r.
  - apply contains_cons_false in H as [H1 H2].
    change (String c base +:+ HLS) with (String c (base +:+ HLS)).
    rewrite replace_from_no_match.
    + by rewrite IH.
    + destruct (String.prefix HLS (String c (base +:+ HLS))) eqn:E; [|done].
      apply hls_no_straddle in E. congruence.
Qed.

(** A URL in which the pattern does not occur is passed on unchanged. *)
Lemma video_info_of_plain (video : Session) :
  contains HLS (IosVideoUrl video) = false ->
  video_info_of video = (IosVideoUrl video, SessionName video).
Proof.
  intros H. unfold video_info_of. f_equal.
  change (replace HLS ".mp4") with (replace_from HLS ".mp4" 0).
  by apply replace_from_absent.
Qed.

(** C6, as stated, fails: [str.replace] rewrites every occurrence of the
    manifest suffix, so a URL that carries it a second time before its end
    is altered there as well. *)
Lemma video_info_rewrites_inner_occurrence :
  ~ (forall (video : Session) (base : string),
       IosVideoUrl video = base +:+ ".hls/master.m3u8" ->
       video_info_of video = (base +:+ ".mp4", SessionName video)).
Proof.
  intros H.
  specialize (H {| IosVideoUrl :=
                     "https://h/a.hls/master.m3u8/b.hls/master.m3u8";
                   SessionName := "Lecture 1" |}
                "https://h/a.hls/master.m3u8/b" eq_refl).
  vm_compute in H. discriminate H.
Qed.

(** C6 (amended): for a video record whose manifest URL ends in
    [.hls/master.m3u8] and does not contain that string before its end, the
    derived URL is the manifest URL with that suffix replaced by [.mp4] and
    nothing else altered; the paired display name is the session name. *)
Theorem video_info_rewrites_suffix (video : Session) (base : string) :
  IosVideoUrl video = base +:+ ".hls/master.m3u8" ->
  contains ".hls/master.m3u8" base = false ->
  video_info_of video = (base +:+ ".mp4", SessionName video).
Proof.
  intros Hurl Hbase. unfold video_info_of.
  by rewrite Hurl, replace_hls_suffix.
Qed.

Lemma video_info_rewrites_suffix_witness :
  video_info_of {| IosVideoUrl := "https://cdn/v/42.hls/master.m3u8";
                   SessionName := "Lecture 1" |}
  = ("https://cdn/v/42.mp4", "Lecture 1").
Proof.
  apply (video_info_rewrites_suffix
           {| IosVideoUrl := "https://cdn/v/42.hls/master.m3u8";
              SessionName := "Lecture 1" |} "https://cdn/v/42");
    reflexivity.
Defined.

(** The three folders of the documentation's example. *)
Example filter_cse_143 :
  folder_selected {| Id := "a"; Name := "CSE 143 Au21"; SessionCount := 5 |}
  = true.
Proof. reflexivity. Qed.

Example filter_math_124 :
  folder_selected {| Id := "b"; Name := "MATH 124"; SessionCount := 5 |}
  = false.
Proof. reflexivity. Qed.

Example filter_cse_142_empty :
  folder_selected {| Id := "c"; Name := "CSE 142"; SessionCount := 0 |}
  = false.
Proof. reflexivity. Qed.

End EnumeratorFacts.

(* ===================================================================== *)
(** * Properties of the enumeration gap *)
(* ===================================================================== *)

Section EnumerationGap.
Import Enumerator Drive SyncDriver.

Lemma get_folder_videos_none folder_id limit client :
  get_folder_videos folder_id limit client = Return None <->
  status_code (client limit folder_id) <> 200.
Proof.
  unfold get_folder_videos.
  destruct (Z.eqb_spec (status_code (client limit folder_id)) 200) as [E|E];
    simpl.
  - split; [|done]. by destruct (results (client limit folder_id)).
  - done.
Qed.

Lemma sync_folder_gap out fuel panopto_folder_id f w :
  status_code (sessions out 50 (Id f)) <> 200 ->
  sync_folder out fuel panopto_folder_id f w
  = (Return tt, with_folder (Some f) w).
Proof.
  intros H. unfold sync_folder, bind, modify, lift.
  destruct (folder_selected f); [|done].
  apply get_folder_videos_none in H. by rewrite H.
Qed.

(** C4: [get_folder_videos] returns [None] exactly when the endpoint
    answers with a status other than 200, and the list of (URL, name) pairs
    of the results on a 200 answer; in the driver such a folder is passed
    over and the loop goes on with the folders after it. *)
Theorem enumeration_gap_is_skipped (folder_id : string) (limit : Z)
    (client : Client) :
  (get_folder_videos folder_id limit client = Return None <->
   status_code (client limit folder_id) <> 200) /\
  (forall rs,
     status_code (client limit folder_id) = 200 ->
     results (client limit folder_id) = Some rs ->
     get_folder_videos folder_id limit client
     = Return (Some (video_info_of <$> rs))) /\
  (forall out fuel panopto_folder_id f rest w,
     status_code (sessions out 50 (Id f)) <> 200 ->
     for_each (f :: rest) (sync_folder out fuel panopto_folder_id) w
     = for_each rest (sync_folder out fuel panopto_folder_id)
         (with_folder (Some f) w)).
Proof.
  split; [apply get_folder_videos_none|split].
  - intros rs H200 Hrs. unfold get_folder_videos. by rewrite H200, Hrs.
  - intros out fuel pid f rest w H.
    cbn [for_each]. unfold bind at 1. by rewrite sync_folder_gap.
Qed.

Lemma enumeration_gap_is_skipped_witness :
  let ta := {| Id := "ta"; Name := "CSE 143 staff"; SessionCount := 3 |} in
  let rest := [ {| Id := "x"; Name := "CSE 143 Au21"; SessionCount := 5 |} ] in
  for_each (ta :: rest) (sync_folder Sample.partial_outside 2 "id-0")
    Sample.fresh
  = for_each rest (sync_folder Sample.partial_outside 2 "id-0")
      (with_folder (Some ta) Sample.fresh).
Proof.
  intros ta rest.
  apply (enumeration_gap_is_skipped "ta" 50 Sample.partial_sessions).
  vm_compute. discriminate.
Defined.

End EnumerationGap.

(* ===================================================================== *)
(** * Properties of the SAML negotiation *)
(* ===================================================================== *)

Section NegotiatorFacts.
Import Negotiator Taxonomy.

Lemma py_assert_true {S} msg (s : S) : py_assert true msg s = (Return tt, s).
Proof. done. Qed.

Lemma py_assert_false {S} msg (s : S) :
  py_assert false msg s = (Raise (AssertionError msg), s).
Proof. done. Qed.

(** C9: [negotiate_saml] fails with an authentication error (an
    [AssertionError]) when one of [_csrf_token], [bbbbbbbbbbbbbbb],
    [JSESSIONID] is missing after the first GET, or [.ASPXAUTH] after the
    last one; it fails with a credential error ([TypeError], [KeyError])
    when the sign-in answer has no [SAMLResponse] input with a value; and
    it returns the session otherwise. *)
Theorem negotiate_saml_outcomes (USERNAME PASSWORD : option string)
    (web : Web) :
  let login := http_get web CANVAS_SAML_LOGIN ∅ in
  let jar1 := set_cookies login ∪ ∅ in
  let sign_in :=
    http_post web (url login)
      [("j_username", USERNAME); ("j_password", PASSWORD);
       ("_eventId_proceed", Some "Sign+in")] jar1 in
  let jar2 := set_cookies sign_in ∪ jar1 in
  let field := soup_find "input" "name" "SAMLResponse" (text sign_in) in
  let session v :=
    let jar3 :=
      set_cookies (http_post web CANVAS_SAML [("SAMLResponse", Some v)] jar2)
      ∪ jar2 in
    set_cookies (http_get web PANOPTO_LOGIN jar3) ∪ jar3 in
  let checkpoint1 :=
    has_cookie jar1 "_csrf_token" && has_cookie jar1 "bbbbbbbbbbbbbbb"
    && has_cookie jar1 "JSESSIONID" in
  (checkpoint1 = false ->
   fails_with AuthenticationError (negotiate_saml USERNAME PASSWORD web)) /\
  (checkpoint1 = true ->
   (forall t, field = Some t -> attrs t !! "value" = None) ->
   fails_with CredentialError (negotiate_saml USERNAME PASSWORD web)) /\
  (forall t v,
     checkpoint1 = true -> field = Some t -> attrs t !! "value" = Some v ->
     has_cookie (session v) ".ASPXAUTH" = false ->
     fails_with AuthenticationError (negotiate_saml USERNAME PASSWORD web)) /\
  (forall t v,
     checkpoint1 = true -> field = Some t -> attrs t !! "value" = Some v ->
     has_cookie (session v) ".ASPXAUTH" = true ->
     negotiate_saml USERNAME PASSWORD web = Return (session v)).
Proof.
  intros login jar1 sign_in jar2 field session checkpoint1.
  unfold negotiate_saml, negotiate_saml_session, client_get, client_post,
    bind, get.
  subst checkpoint1 session field jar2 sign_in jar1 login. cbv zeta.
  set (login := http_get web CANVAS_SAML_LOGIN ∅).
  set (jar1 := set_cookies login ∪ ∅).
  destruct (has_cookie jar1 "_csrf_token") eqn:E1;
    [|repeat split; intros; try discriminate;
      rewrite py_assert_false; eexists; done].
  destruct (has_cookie jar1 "bbbbbbbbbbbbbbb") eqn:E2;
    [|repeat split; intros; try discriminate;
      rewrite py_assert_true, py_assert_false; eexists; done].
  destruct (has_cookie jar1 "JSESSIONID") eqn:E3;
    [|repeat split; intros; try discriminate;
      rewrite !py_assert_true, py_assert_false; eexists; done].
  rewrite !py_assert_true. cbn [andb].
  split; [done|]. unfold subscript, raise, ret.
  set (sign_in := http_post web (url login) _ jar1).
  destruct (soup_find "input" "name" "SAMLResponse" (text sign_in))
    as [t|] eqn:Ef.
  - destruct (attrs t !! "value") as [v|] eqn:Ev.
    + split; [|split].
      * intros _ H. specialize (H t eq_refl). congruence.
      * intros t' v' _ [= <-] Hv Hc. assert (v' = v) as -> by congruence.
        rewrite Hc, py_assert_false. eexists; done.
      * intros t' v' _ [= <-] Hv Hc. assert (v' = v) as -> by congruence.
        by rewrite Hc, py_assert_true.
    + split; [|split]; [|intros ? ? _ [= <-]; congruence..].
      intros _ _. eexists; done.
  - split; [|split]; [|intros ? ? _ [=]..].
    intros _ _. eexists; done.
Qed.

Lemma negotiate_saml_outcomes_witness :
  exists client,
    negotiate_saml (Some "netid") (Some "secret") Sample.web = Return client.
Proof.
  eexists.
  eapply (negotiate_saml_outcomes (Some "netid") (Some "secret") Sample.web);
    vm_compute; reflexivity.
Defined.

End NegotiatorFacts.

(* ===================================================================== *)
(** * Properties of the token store *)
(* ===================================================================== *)

Section TokenStoreFacts.
Import TokenStore.

(** C8, as stated, fails: when [token.pickle] holds a valid credential, it
    is returned and no [pickle.dump] is made. *)
Lemma valid_token_is_not_rewritten :
  ~ (forall (oauth : OAuth) (d d' : Disk) (c : Credentials),
       google_drive_auth oauth d = (Return c, d') ->
       exists earlier, dumps d' = dumps d ++ earlier ++ [c]).
Proof.
  intros H.
  pose (c := {| token := "t"; valid := true; expired := false;
                refresh_token := Some "r" |}).
  destruct (H {| refresh := fun _ => Raise RefreshError;
                 run_local_server := Raise (FileNotFoundError
                                              "credentials.json") |}
              {| token_pickle := Some c; dumps := [] |}
              {| token_pickle := Some c; dumps := [] |}
              c eq_refl) as [earlier E].
  simpl in E. by destruct earlier.
Qed.

(** C8 (amended): when [google_drive_auth] returns a credential,
    [token.pickle] holds that credential.  If a valid credential was loaded
    from the file, the file is left as it is and nothing is written;
    otherwise the refreshed or newly granted credential is written to it
    just before the function returns. *)
Theorem returned_token_is_persisted (oauth : OAuth) (d d' : Disk)
    (c : Credentials) :
  google_drive_auth oauth d = (Return c, d') ->
  token_pickle d' = Some c /\
  match token_pickle d with
  | Some c0 =>
      if valid c0 then c = c0 /\ d' = d
      else dumps d' = dumps d ++ [c]
  | None => dumps d' = dumps d ++ [c]
  end.
Proof.
  unfold google_drive_auth, bind, get, pickle_dump, modify, lift, ret.
  destruct (token_pickle d) as [c0|] eqn:E.
  - destruct (valid c0); cbn [negb].
    + intros [= <- <-]. done.
    + destruct (expired c0 && truthy (refresh_token c0)).
      * destruct (refresh oauth c0) as [c1| |]; intros [= <- <-]; done.
      * destruct (run_local_server oauth) as [c1| |]; intros [= <- <-]; done.
  - destruct (run_local_server oauth) as [c1| |]; intros [= <- <-]; done.
Qed.

Lemma returned_token_is_persisted_witness :
  let c := {| token := "old"; valid := false; expired := true;
              refresh_token := Some "r" |} in
  let c' := {| token := "new"; valid := true; expired := false;
               refresh_token := Some "r" |} in
  token_pickle {| token_pickle := Some c'; dumps := [c'] |} = Some c' /\
  [c'] = [] ++ [c'].
Proof.
  intros c c'.
  apply (returned_token_is_persisted
           {| refresh := fun _ => Return c';
              run_local_server := Raise (FileNotFoundError
                                           "credentials.json") |}
           {| token_pickle := Some c; dumps := [] |}
           {| token_pickle := Some c'; dumps := [c'] |} c').
  reflexivity.
Defined.

End TokenStoreFacts.

(* ===================================================================== *)
(** * Facts about Drive requests and the retry loop *)
(* ===================================================================== *)

Section DriveFacts.
Import Drive Retrying.

Lemma with_files_same w : with_files (drive_files w) w = w.
Proof. by destruct w. Qed.

Lemma with_faults_same w : with_faults (drive_faults w) w = w.
Proof. by destruct w. Qed.

(** A request made while no fault is pending is served. *)
Lemma execute_calm {A} (request : list File -> A * list File) w :
  drive_faults w = [] ->
  execute request w
  = (Return (request (drive_files w)).1,
     with_files (request (drive_files w)).2 w).
Proof.
  intros H. unfold execute. rewrite H. by destruct (request _).
Qed.

(** A request made while a fault is pending fails and uses the fault up. *)
Lemma execute_fault {A} (request : list File -> A * list File) w later :
  drive_faults w = true :: later ->
  execute request w = (Raise HttpError, with_faults later w).
Proof. intros H. unfold execute. by rewrite H. Qed.

Lemma files_list_calm q w :
  drive_faults w = [] ->
  files_list q w = (Return (file_id <$> filter (matches q) (drive_files w)), w).
Proof.
  intros H. unfold files_list. rewrite execute_calm by done.
  cbn [fst snd]. by rewrite with_files_same.
Qed.

Lemma files_create_calm out name mime ps md w :
  drive_faults w = [] ->
  files_create out name mime ps md w
  = (Return (new_id out (drive_files w)),
     with_files
       (drive_files w ++
        [ {| file_id := new_id out (drive_files w); file_name := name;
             mimeType := mime; parents := ps; media := md |} ]) w).
Proof. intros H. unfold files_create. by rewrite execute_calm. Qed.

(** The listing has a first entry exactly when some file matches. *)
Lemma filter_nil_not_exists q (fs : list File) :
  filter (matches q) fs = [] <-> ~ Exists (matches q) fs.
Proof.
  induction fs as [|f fs IH].
  - split; [|done]. intros _ H. inversion H.
  - rewrite filter_cons. destruct (decide (matches q f)) as [Hm|Hm].
    + split; [done|]. intros H. exfalso. apply H. by left.
    + rewrite IH. split; intros H H'.
      * inversion H'; subst; tauto.
      * apply H. by right.
Qed.

End DriveFacts.

Section RetryFacts.
Import Drive Retrying.

Lemma retry_call_return {A} m x fuel k (fn : M World A) w a w' :
  fn w = (Return a, w') ->
  retry_call m x (S fuel) k fn w = (Return a, w').
Proof. intros H. cbn [retry_call]. by rewrite H. Qed.

Lemma retry_call_raise {A} m x fuel k (fn : M World A) w e w' :
  fn w = (Raise e, w') ->
  retry_call m x (S fuel) k fn w
  = retry_call m x fuel (k + 1) fn
      (with_slept (slept w' ++ [exponential_sleep m x k]) w').
Proof. intros H. cbn [retry_call]. by rewrite H. Qed.

Lemma waits_succ m x k n :
  waits m x k (S n) = exponential_sleep m x k :: waits m x (k + 1) n.
Proof.
  unfold waits. cbn [seq fmap list_fmap]. rewrite Z.add_0_r. f_equal.
  rewrite <- fmap_S_seq, <- list_fmap_compose. apply list_fmap_ext.
  intros ? i _. simpl. f_equal. lia.
Qed.

(** A decorated function that never raises once past its body's first
    request is retried through every pending fault. *)
Section ThroughFaults.
Context {A : Type} (fn : M World A).
Hypothesis fn_fault :
  forall w later, drive_faults w = true :: later ->
    exists e, fn w = (Raise e, with_faults later w).

Lemma retry_call_through_faults m x n :
  forall fuel k w later,
    drive_faults w = replicate n true ++ later ->
    retry_call m x (n + fuel) k fn w
    = retry_call m x fuel (k + Z.of_nat n) fn
        (with_slept (slept w ++ waits m x k n) (with_faults later w)).
Proof.
  induction n as [|n IH]; intros fuel k w later Hw.
  - simpl in Hw. rewrite <- Hw, with_faults_same, Z.add_0_r.
    unfold waits. simpl. rewrite app_nil_r. by destruct w.
  - simpl in Hw. destruct (fn_fault _ _ Hw) as [e He].
    change (S n + fuel)%nat with (S (n + fuel)).
    rewrite (retry_call_raise _ _ _ _ _ _ _ _ He).
    rewrite (IH _ _ _ later) by done.
    rewrite waits_succ. f_equal; [lia|].
    destruct w; simpl. unfold with_slept, with_faults; simpl.
    by rewrite <- app_assoc.
Qed.

(** While faults keep coming the loop does not end: it neither returns nor
    lets the exception out. *)
Lemma retry_call_starved m x n :
  forall k w later,
    drive_faults w = replicate n true ++ later ->
    retry_call m x n k fn w
    = (OutOfFuel,
       with_slept (slept w ++ waits m x k n) (with_faults later w)).
Proof.
  intros k w later Hw.
  rewrite <- (Nat.add_0_r n) at 1.
  by rewrite (retry_call_through_faults m x n 0 k w later).
Qed.

End ThroughFaults.

End RetryFacts.

(* ===================================================================== *)
(** * Properties of the reconciler *)
(* ===================================================================== *)

Section ReconcilerFacts.
Import Drive Retrying Reconciler.

(** An attempt of either function starts with a listing, so a pending
    fault makes it raise. *)
Lemma create_once_fault out name parent w later :
  drive_faults w = true :: later ->
  exists e,
    create_folder_if_not_exists_once out name parent w
    = (Raise e, with_faults later w).
Proof.
  intros H. exists HttpError.
  unfold create_folder_if_not_exists_once, bind, files_list.
  by rewrite (execute_fault _ _ later).
Qed.

Lemma check_once_fault name parent w later :
  drive_faults w = true :: later ->
  exists e,
    check_if_file_exists_once name parent w = (Raise e, with_faults later w).
Proof.
  intros H. exists HttpError.
  unfold check_if_file_exists_once, bind, files_list.
  by rewrite (execute_fault _ _ later).
Qed.

(** One attempt of the existence check while Drive answers. *)
Lemma check_once_calm name parent w :
  drive_faults w = [] ->
  check_if_file_exists_once name parent w
  = (Return (bool_decide
               (Exists (matches (InParentNamed (format_parent parent)
                                               (name +:+ ".mp4")))
                       (drive_files w))), w).
Proof.
  intros H. unfold check_if_file_exists_once, bind.
  rewrite files_list_calm by done.
  destruct (filter _ (drive_files w)) as [|f l] eqn:E; cbn [fmap list_fmap].
  - apply filter_nil_not_exists in E. by rewrite bool_decide_eq_false_2.
  - rewrite bool_decide_eq_true_2; [done|].
    destruct (decide (Exists (matches (InParentNamed (format_parent parent)
                (name +:+ ".mp4"))) (drive_files w))) as [|N]; [done|].
    apply filter_nil_not_exists in N. congruence.
Qed.

(** One attempt of the folder lookup while Drive answers: a match. *)
Lemma create_once_found out name parent w f l :
  drive_faults w = [] ->
  filter (matches (FolderNamed name)) (drive_files w) = f :: l ->
  create_folder_if_not_exists_once out name parent w = (Return (file_id f), w).
Proof.
  intros H E. unfold create_folder_if_not_exists_once, bind.
  rewrite files_list_calm by done. by rewrite E.
Qed.

(** One attempt while Drive answers: no match, so the folder is created;
    what follows depends on the module-level variable [folder]. *)
Lemma create_once_created out name parent w :
  drive_faults w = [] ->
  filter (matches (FolderNamed name)) (drive_files w) = [] ->
  create_folder_if_not_exists_once out name parent w
  = (match folder w with
     | None => Raise (NameError "folder")
     | Some _ => Return (new_id out (drive_files w))
     end,
     with_files
       (drive_files w ++
        [folder_file (new_id out (drive_files w)) name (option_list parent)])
       w).
Proof.
  intros H E. unfold create_folder_if_not_exists_once, bind.
  rewrite files_list_calm by done. rewrite E. cbn [fmap list_fmap].
  rewrite files_create_calm by done. unfold get. cbn [folder with_files].
  replace (match parent with Some p => [p] | None => [] end)
    with (option_list parent) by by destruct parent.
  by destruct (folder w).
Qed.

Lemma filter_created name (fs : list File) i ps :
  filter (matches (FolderNamed name)) fs = [] ->
  filter (matches (FolderNamed name)) (fs ++ [folder_file i name ps])
  = [folder_file i name ps].
Proof.
  intros E. rewrite filter_app, E. cbn [app].
  rewrite filter_cons. by rewrite decide_True.
Qed.

(** The decorated lookup while Drive answers. *)
Lemma create_found out fuel k name parent w f l :
  drive_faults w = [] ->
  filter (matches (FolderNamed name)) (drive_files w) = f :: l ->
  retry_call 1000 10000 (S fuel) k
    (create_folder_if_not_exists_once out name parent) w
  = (Return (file_id f), w).
Proof.
  intros H E. apply retry_call_return. by eapply create_once_found.
Qed.

Lemma create_created_bound out fuel k name parent w :
  drive_faults w = [] ->
  filter (matches (FolderNamed name)) (drive_files w) = [] ->
  is_Some (folder w) ->
  retry_call 1000 10000 (S fuel) k
    (create_folder_if_not_exists_once out name parent) w
  = (Return (new_id out (drive_files w)),
     with_files
       (drive_files w ++
        [folder_file (new_id out (drive_files w)) name (option_list parent)])
       w).
Proof.
  intros H E [x Hx]. apply retry_call_return.
  rewrite create_once_created by done. by rewrite Hx.
Qed.

Lemma create_created_unbound out fuel k name parent w :
  drive_faults w = [] ->
  filter (matches (FolderNamed name)) (drive_files w) = [] ->
  folder w = None ->
  retry_call 1000 10000 (S (S fuel)) k
    (create_folder_if_not_exists_once out name parent) w
  = (Return (new_id out (drive_files w)),
     with_slept (slept w ++ [exponential_sleep 1000 10000 k])
       (with_files
          (drive_files w ++
           [folder_file (new_id out (drive_files w)) name
              (option_list parent)])
          w)).
Proof.
  intros H E Hf.
  erewrite retry_call_raise;
    [|rewrite create_once_created by done; by rewrite Hf].
  apply (create_found _ _ _ _ _ _
           (folder_file (new_id out (drive_files w)) name
              (option_list parent)) []); [done|].
  cbn [drive_files with_slept with_files]. by apply filter_created.
Qed.

End ReconcilerFacts.

Section ThroughFaultsCreate.
Import Drive Retrying Reconciler.

(** The state after one request was served. *)
Local Abbreviation served w := (with_faults (tail (drive_faults w)) w).

Lemma execute_served {A} (request : list File -> A * list File) w :
  head (drive_faults w) <> Some true ->
  execute request w
  = (Return (request (drive_files w)).1,
     with_files (request (drive_files w)).2 (served w)).
Proof.
  intros H. unfold execute.
  destruct (drive_faults w) as [|[] later] eqn:E; [|done|].
  - cbn [tail]. rewrite <- E, with_faults_same. by destruct (request _).
  - by destruct (request _).
Qed.

Lemma files_list_served q w :
  head (drive_faults w) <> Some true ->
  files_list q w
  = (Return (file_id <$> filter (matches q) (drive_files w)), served w).
Proof.
  intros H. unfold files_list. rewrite execute_served by done.
  cbn [fst snd]. by destruct w.
Qed.

Lemma create_once_served_found out name parent w f rest :
  head (drive_faults w) <> Some true ->
  filter (matches (FolderNamed name)) (drive_files w) = f :: rest ->
  create_folder_if_not_exists_once out name parent w
  = (Return (file_id f), served w).
Proof.
  intros H E. unfold create_folder_if_not_exists_once, bind.
  rewrite files_list_served by done. by rewrite E.
Qed.

Lemma create_once_create_fault out name parent w later :
  head (drive_faults w) <> Some true ->
  filter (matches (FolderNamed name)) (drive_files w) = [] ->
  tail (drive_faults w) = true :: later ->
  create_folder_if_not_exists_once out name parent w
  = (Raise HttpError, with_faults later w).
Proof.
  intros H E Ht. unfold create_folder_if_not_exists_once, bind.
  rewrite files_list_served by done. rewrite E. cbn [fmap list_fmap].
  unfold files_create. rewrite (execute_fault _ _ later) by by rewrite <- Ht.
  by destruct w.
Qed.

Lemma create_once_create_served out name parent w :
  head (drive_faults w) <> Some true ->
  filter (matches (FolderNamed name)) (drive_files w) = [] ->
  head (tail (drive_faults w)) <> Some true ->
  create_folder_if_not_exists_once out name parent w
  = (match folder w with
     | None => Raise (NameError "folder")
     | Some _ => Return (new_id out (drive_files w))
     end,
     with_files
       (drive_files w ++
        [folder_file (new_id out (drive_files w)) name (option_list parent)])
       (with_faults (tail (tail (drive_faults w))) w)).
Proof.
  intros H E Ht. unfold create_folder_if_not_exists_once, bind.
  rewrite files_list_served by done. rewrite E. cbn [fmap list_fmap].
  unfold files_create. rewrite execute_served by done.
  cbn [fst snd get drive_files drive_faults with_faults with_files folder].
  replace (match parent with Some p => [p] | None => [] end)
    with (option_list parent) by by destruct parent.
  by destruct (folder w).
Qed.

(** The decorated lookup of a folder that exists gets through any pending
    faults and returns its id. *)
Lemma create_found_through out name parent f rest :
  forall l w k fuel,
    drive_faults w = l -> (length l < fuel)%nat ->
    filter (matches (FolderNamed name)) (drive_files w) = f :: rest ->
    exists w',
      retry_call 1000 10000 fuel k
        (create_folder_if_not_exists_once out name parent) w
      = (Return (file_id f), w') /\
      drive_files w' = drive_files w /\
      (length (drive_faults w') <= length l)%nat.
Proof.
  induction l as [|[] l IH]; intros w k [|fuel] Hl Hfuel E;
    simpl in Hfuel; try lia.
  - exists w. split; [by apply (create_found _ _ _ _ _ _ f rest)|].
    by rewrite Hl.
  - destruct (create_once_fault out name parent w l Hl) as [e He].
    rewrite (retry_call_raise _ _ _ _ _ _ _ _ He).
    edestruct (IH (with_slept
                     (slept (with_faults l w) ++
                      [exponential_sleep 1000 10000 k]) (with_faults l w))
                 (k + 1) fuel) as (w' & Hr & Hf & Hn);
      [done|lia|done|].
    exists w'. split; [done|]. split; [done|]. simpl. lia.
  - exists (served w). split.
    + apply retry_call_return.
      apply (create_once_served_found _ _ _ _ f rest); [|done].
      by rewrite Hl.
    + split; [done|]. rewrite Hl. simpl. lia.
Qed.

Lemma exists_filter q (fs : list File) f rest :
  filter (matches q) fs = f :: rest -> Exists (matches q) fs.
Proof.
  intros E. destruct (decide (Exists (matches q) fs)) as [|N]; [done|].
  apply filter_nil_not_exists in N. congruence.
Qed.

(** The decorated function gets through any pending faults: it returns the
    id of a folder of that name, which is the first one found if there was
    any and a newly created one otherwise. *)
Lemma create_through out name parent :
  forall n w k fuel,
    (length (drive_faults w) <= n)%nat -> (n + 2 <= fuel)%nat ->
    exists id w',
      retry_call 1000 10000 fuel k
        (create_folder_if_not_exists_once out name parent) w
      = (Return id, w') /\
      (length (drive_faults w') <= length (drive_faults w))%nat /\
      drive_files w'
      = (if decide (Exists (matches (FolderNamed name)) (drive_files w))
         then drive_files w
         else drive_files w ++ [folder_file id name (option_list parent)]) /\
      exists f rest,
        filter (matches (FolderNamed name)) (drive_files w') = f :: rest /\
        file_id f = id.
Proof.
  induction n as [n IH] using lt_wf_ind.
  intros w k [|[|fuel]] Hn Hfuel; try lia.
  set (once := create_folder_if_not_exists_once out name parent).
  destruct (decide (head (drive_faults w) = Some true)) as [Hh|Hh].
  { (* the listing fails *)
    destruct (drive_faults w) as [|b l] eqn:El; [done|].
    injection Hh as ->. simpl in Hn.
    destruct (create_once_fault out name parent w l El) as [e He].
    unfold once. rewrite (retry_call_raise _ _ _ _ _ _ _ _ He).
    edestruct (IH (n - 1)%nat ltac:(lia)
                 (with_slept (slept (with_faults l w) ++
                              [exponential_sleep 1000 10000 k])
                    (with_faults l w)) (k + 1) (S fuel))
      as (id & w' & Hr & Hl & Hf & Hm); [simpl; lia|lia|].
    exists id, w'. split; [done|]. split; [simpl in *; lia|]. by split. }
  destruct (filter (matches (FolderNamed name)) (drive_files w))
    as [|f rest] eqn:E.
  2:{ (* the folder is found *)
    exists (file_id f), (served w). split.
    - apply retry_call_return.
      by apply (create_once_served_found _ _ _ _ f rest).
    - split; [destruct (drive_faults w); simpl; lia|].
      split; [by rewrite (decide_True _ _ (exists_filter _ _ _ _ E))|].
      by exists f, rest. }
  pose proof E as N. apply filter_nil_not_exists in N.
  set (nf := folder_file (new_id out (drive_files w)) name
               (option_list parent)).
  destruct (decide (head (tail (drive_faults w)) = Some true)) as [Ht|Ht].
  { (* the create request fails *)
    destruct (drive_faults w) as [|b [|b' l]] eqn:El; try done.
    injection Ht as ->. simpl in Hn.
    unfold once.
    rewrite (retry_call_raise _ _ _ _ _ _ _ _
               (create_once_create_fault out name parent w l
                  ltac:(by rewrite El) E ltac:(by rewrite El))).
    edestruct (IH (n - 2)%nat ltac:(lia)
                 (with_slept (slept (with_faults l w) ++
                              [exponential_sleep 1000 10000 k])
                    (with_faults l w)) (k + 1) (S fuel))
      as (id & w' & Hr & Hl & Hf & Hm); [simpl; lia|lia|].
    exists id, w'. split; [done|]. split; [simpl in *; lia|]. by split. }
  (* the folder is created *)
  pose proof (create_once_create_served out name parent w Hh E Ht) as Ho.
  set (w2 := with_files (drive_files w ++ [nf])
               (with_faults (tail (tail (drive_faults w))) w)) in *.
  assert (length (drive_faults w2) <= length (drive_faults w))%nat as Hl2.
  { subst w2. simpl. destruct (drive_faults w) as [|? [|? ?]]; simpl; lia. }
  assert (filter (matches (FolderNamed name)) (drive_files w2) = [nf]) as E2
      by by apply filter_created.
  destruct (folder w) as [x|] eqn:Hf.
  - exists (new_id out (drive_files w)), w2. split.
    + by apply retry_call_return.
    + split; [done|]. split; [by rewrite (decide_False _ _ N)|].
      by exists nf, [].
  - unfold once. rewrite (retry_call_raise _ _ _ _ _ _ _ _ Ho).
    edestruct (create_found_through out name parent nf []
                 (drive_faults w2)
                 (with_slept (slept w2 ++ [exponential_sleep 1000 10000 k])
                    w2) (k + 1) (S fuel))
      as (w' & Hr & Hfs & Hl); [done|simpl in *; lia|done|].
    exists (new_id out (drive_files w)), w'. split; [done|].
    split; [simpl in *; lia|].
    split; [by rewrite Hfs, (decide_False _ _ N)|].
    exists nf, []. by rewrite Hfs.
Qed.

End ThroughFaultsCreate.

Section ReconcilerClaims.
Import Drive Retrying Reconciler.

(** C10: an undecorated execution of [create_folder_if_not_exists] that
    finds no match while the module-level name [folder] is unbound sends
    the create request and then raises [NameError]; it does not return the
    id of the folder it created. *)
Theorem creation_without_folder_raises (out : Outside) (name : string)
    (parent : option string) (w : World) :
  drive_faults w = [] ->
  ~ Exists (matches (FolderNamed name)) (drive_files w) ->
  folder w = None ->
  create_folder_if_not_exists_once out name parent w
  = (Raise (NameError "folder"),
     with_files
       (drive_files w ++
        [folder_file (new_id out (drive_files w)) name (option_list parent)])
       w).
Proof.
  intros H N Hf. apply filter_nil_not_exists in N.
  rewrite create_once_created by done. by rewrite Hf.
Qed.

Lemma creation_without_folder_raises_witness :
  create_folder_if_not_exists_once Sample.outside
    SyncDriver.GOOGLE_DRIVE_FOLDER_NAME None Sample.fresh
  = (Raise (NameError "folder"),
     with_files [folder_file "id-0" "Panopto Videos" []] Sample.fresh).
Proof.
  apply (creation_without_folder_raises Sample.outside
           SyncDriver.GOOGLE_DRIVE_FOLDER_NAME None Sample.fresh).
  - reflexivity.
  - intros H. inversion H.
  - reflexivity.
Defined.

(** C1 at a failing input: Drive holds a folder named [CSE 143] under
    [other] and none under [root]; asked for [CSE 143] under [root], the
    function returns the id of the folder under [other] and creates
    nothing. *)
Theorem lookup_ignores_parent :
  let w :=
    with_files [folder_file "id-7" "CSE 143" ["other"]] Sample.fresh in
  create_folder_if_not_exists Sample.outside 3 "CSE 143" (Some "root") w
  = (Return "id-7", w) /\
  ~ Exists (fun f => matches (FolderNamed "CSE 143") f /\ "root" ∈ parents f)
      (drive_files w).
Proof.
  split; [reflexivity|].
  intros H. inversion H as [f l [_ Hp]|f l Hn]; subst.
  - simpl in Hp. apply elem_of_cons in Hp as [Hp|Hp]; [discriminate Hp|].
    by apply elem_of_nil in Hp.
  - inversion Hn.
Qed.

(** C2, as stated, fails: when a folder of that name is there already, the
    two calls agree on its id and create no folder at all. *)
Lemma existing_folder_is_not_created_again :
  ~ (forall out fuel name parent w id1 id2 w1 w2,
       drive_faults w = [] ->
       create_folder_if_not_exists out fuel name parent w = (Return id1, w1) ->
       create_folder_if_not_exists out fuel name parent w1
       = (Return id2, w2) ->
       id1 = id2 /\
       length (drive_files w2) = S (length (drive_files w))).
Proof.
  intros H.
  pose (w := with_files [folder_file "id-0" "Panopto Videos" []]
               Sample.fresh).
  destruct (H Sample.outside 2%nat "Panopto Videos" None w "id-0" "id-0" w w
              eq_refl eq_refl eq_refl) as [_ E].
  discriminate E.
Qed.

(** C2 (amended): two successive calls of [create_folder_if_not_exists]
    with the same name and parent, failed requests being retried, return
    the same id, and the second call leaves the files of Drive as they
    are.  Across the two calls one folder is created when the lookup of
    the first call finds none, and no folder otherwise. *)
Theorem create_folder_is_idempotent (out : Outside) (fuel : nat)
    (name : string) (parent : option string) (w : World) :
  (length (drive_faults w) + 2 <= fuel)%nat ->
  exists id w1 w2,
    create_folder_if_not_exists out fuel name parent w = (Return id, w1) /\
    create_folder_if_not_exists out fuel name parent w1 = (Return id, w2) /\
    drive_files w2 = drive_files w1 /\
    drive_files w1
    = if decide (Exists (matches (FolderNamed name)) (drive_files w))
      then drive_files w
      else drive_files w ++ [folder_file id name (option_list parent)].
Proof.
  intros Hfuel. unfold create_folder_if_not_exists, retry.
  destruct (create_through out name parent (length (drive_faults w)) w 1 fuel)
    as (id & w1 & Hr1 & Hl1 & Hf1 & f & rest & E1 & <-); [done|lia|].
  destruct (create_found_through out name parent f rest (drive_faults w1)
              w1 1 fuel) as (w2 & Hr2 & Hf2 & _); [done|lia|done|].
  by exists (file_id f), w1, w2.
Qed.

Lemma create_folder_is_idempotent_witness :
  exists id w1 w2,
    create_folder_if_not_exists Sample.outside 4 "Panopto Videos" None
      (with_faults [true; false] Sample.fresh) = (Return id, w1) /\
    create_folder_if_not_exists Sample.outside 4 "Panopto Videos" None w1
    = (Return id, w2) /\
    drive_files w2 = drive_files w1 /\
    drive_files w1 = [folder_file id "Panopto Videos" []].
Proof.
  apply (create_folder_is_idempotent Sample.outside 4 "Panopto Videos" None
           (with_faults [true; false] Sample.fresh)).
  simpl. lia.
Defined.

End ReconcilerClaims.

(* ===================================================================== *)
(** * Properties of the retry policy *)
(* ===================================================================== *)

Section RetryPolicy.
Import Drive Retrying Reconciler.

Lemma exponential_sleep_min k :
  exponential_sleep 1000 10000 k = Z.min (1000 * 2 ^ k) 10000.
Proof.
  unfold exponential_sleep. cbv zeta.
  assert (0 <= 2 ^ k) by (apply Z.pow_nonneg; lia).
  destruct (Z.ltb_spec 10000 (1000 * 2 ^ k)) as [Hc|Hc].
  - destruct (Z.ltb_spec 10000 0); lia.
  - destruct (Z.ltb_spec (1000 * 2 ^ k) 0); lia.
Qed.

Lemma exponential_sleep_bounds k :
  0 <= exponential_sleep 1000 10000 k <= 10000.
Proof.
  rewrite exponential_sleep_min.
  assert (0 <= 2 ^ k) by (apply Z.pow_nonneg; lia). lia.
Qed.

Lemma exponential_sleep_doubles k :
  1 <= k ->
  exponential_sleep 1000 10000 (k + 1)
  = Z.min (2 * exponential_sleep 1000 10000 k) 10000.
Proof.
  intros Hk. rewrite !exponential_sleep_min.
  rewrite Z.pow_add_r by lia. change (2 ^ 1) with 2. lia.
Qed.

Lemma exponential_sleep_mono k :
  exponential_sleep 1000 10000 k <= exponential_sleep 1000 10000 (k + 1).
Proof.
  rewrite !exponential_sleep_min.
  destruct (Z_lt_le_dec k 0) as [Hk|Hk].
  - rewrite (Z.pow_neg_r 2 k) by done.
    assert (0 <= 2 ^ (k + 1)) by (apply Z.pow_nonneg; lia). lia.
  - rewrite Z.pow_add_r by lia. change (2 ^ 1) with 2.
    assert (0 <= 2 ^ k) by (apply Z.pow_nonneg; lia). lia.
Qed.

(** C5: the wait of the retry policy on both reconciler functions starts
    at 2000 ms, doubles with every failed attempt up to 10000 ms, never
    exceeds 10000 ms and never decreases; and however many requests in a
    row fail, both functions are attempted again after each failure and
    return once Drive answers, having slept exactly these waits. *)
Theorem retry_policy_is_capped_and_unbounded (k : Z) (n : nat) :
  let wait := exponential_sleep 1000 10000 in
  0 <= wait k <= 10000 /\
  wait 1 = 2000 /\
  (1 <= k -> wait (k + 1) = Z.min (2 * wait k) 10000) /\
  wait k <= wait (k + 1) /\
  (forall name parent w,
     drive_faults w = replicate n true ->
     (check_if_file_exists n name parent w).1 = OutOfFuel /\
     exists b w',
       check_if_file_exists (S n) name parent w = (Return b, w') /\
       slept w' = slept w ++ waits 1000 10000 1 n) /\
  (forall out name parent w,
     drive_faults w = replicate n true ->
     (create_folder_if_not_exists out n name parent w).1 = OutOfFuel /\
     exists id w' m,
       create_folder_if_not_exists out (S (S n)) name parent w
       = (Return id, w') /\
       (n <= m)%nat /\
       slept w' = slept w ++ waits 1000 10000 1 m).
Proof.
  intros wait. subst wait.
  split; [apply exponential_sleep_bounds|].
  split; [reflexivity|].
  split; [apply exponential_sleep_doubles|].
  split; [apply exponential_sleep_mono|].
  split.
  - intros name parent w Hw.
    assert (drive_faults w = replicate n true ++ []) as Hw'
        by by rewrite app_nil_r.
    unfold check_if_file_exists, retry. split.
    + by rewrite (retry_call_starved _ (check_once_fault name parent)
                    _ _ n 1 w []).
    + replace (S n) with (n + 1)%nat by lia.
      rewrite (retry_call_through_faults _ (check_once_fault name parent)
                 _ _ n 1 1 w []) by done.
      eexists _, _. split.
      * apply retry_call_return. by apply check_once_calm.
      * done.
  - intros out name parent w Hw.
    assert (drive_faults w = replicate n true ++ []) as Hw'
        by by rewrite app_nil_r.
    split.
    + unfold create_folder_if_not_exists, retry.
      by rewrite (retry_call_starved _ (create_once_fault out name parent)
                    _ _ n 1 w []).
    + set (w0 := with_slept (slept w ++ waits 1000 10000 1 n)
                   (with_faults [] w)).
      assert (create_folder_if_not_exists out (S (S n)) name parent w
              = retry_call 1000 10000 2 (1 + Z.of_nat n)
                  (create_folder_if_not_exists_once out name parent) w0)
        as ->.
      { unfold create_folder_if_not_exists, retry.
        replace (S (S n)) with (n + 2)%nat by lia.
        by rewrite (retry_call_through_faults _
                      (create_once_fault out name parent) _ _ n 2 1 w []). }
      destruct (filter (matches (FolderNamed name)) (drive_files w0))
        as [|f l] eqn:E.
      * destruct (folder w0) as [x|] eqn:Hf.
        -- eexists _, _, n. split; [by apply create_created_bound|].
           split; [lia|done].
        -- eexists _, _, (S n). split; [by apply create_created_unbound|].
           split; [lia|]. cbn [slept with_slept with_files w0].
           rewrite <- app_assoc. f_equal.
           unfold waits. rewrite seq_S, fmap_app. done.
      * eexists _, _, n. split; [by eapply create_found|].
        split; [lia|done].
Qed.

Lemma retry_policy_is_capped_and_unbounded_witness :
  exists b w',
    check_if_file_exists 6 "Lecture 1" (Some "dst")
      (with_faults [true; true; true; true; true] Sample.fresh)
    = (Return b, w') /\
    slept w' = [2000; 4000; 8000; 10000; 10000].
Proof.
  destruct (retry_policy_is_capped_and_unbounded 1 5)
    as (_ & _ & _ & _ & Hcheck & _).
  apply (Hcheck "Lecture 1" (Some "dst")
           (with_faults [true; true; true; true; true] Sample.fresh)).
  reflexivity.
Defined.

End RetryPolicy.

(* ===================================================================== *)
(** * Properties of the driver *)
(* ===================================================================== *)

Section SyncDriverFacts.
Import Drive Retrying Reconciler SyncDriver.

(** The destination folder holds an item called [<video_name>.mp4]. *)
Local Abbreviation stored folder_id video_name w :=
  (Exists (matches (InParentNamed folder_id (video_name +:+ ".mp4")))
     (drive_files w)).

(** The state after the video was fetched and uploaded. *)
Local Abbreviation transferred out folder_id video w :=
  (with_files
     (drive_files w ++
      [video_file (new_id out (drive_files w)) (video.2 +:+ ".mp4")
         [folder_id] (content out video.1)])
     (with_fetched (fetched w ++ [video.1]) w)).

Lemma check_calm fuel name parent w :
  drive_faults w = [] ->
  check_if_file_exists (S fuel) name parent w
  = (Return (bool_decide (stored (format_parent parent) name w)), w).
Proof.
  intros H. apply retry_call_return. by apply check_once_calm.
Qed.

Lemma sync_video_stored out fuel folder_id video w :
  drive_faults w = [] ->
  stored folder_id video.2 w ->
  sync_video out (S fuel) folder_id video w = (Return tt, w).
Proof.
  intros H Hs. destruct video as [video_url video_name].
  unfold sync_video, bind. rewrite check_calm by done.
  cbn [format_parent]. by rewrite bool_decide_eq_true_2.
Qed.

Lemma sync_video_missing out fuel folder_id video w :
  drive_faults w = [] ->
  ~ stored folder_id video.2 w ->
  download_error out video.1 = None ->
  sync_video out (S fuel) folder_id video w
  = (Return tt, transferred out folder_id video w).
Proof.
  intros H Hs Hd. destruct video as [video_url video_name].
  unfold sync_video, bind. rewrite check_calm by done.
  cbn [format_parent]. rewrite bool_decide_eq_false_2 by done.
  unfold requests_get. cbn [fst] in Hd. rewrite Hd.
  by rewrite files_create_calm.
Qed.

Lemma sync_video_unfetchable out fuel folder_id video w e :
  drive_faults w = [] ->
  ~ stored folder_id video.2 w ->
  download_error out video.1 = Some e ->
  sync_video out (S fuel) folder_id video w = (Raise e, w).
Proof.
  intros H Hs Hd. destruct video as [video_url video_name].
  unfold sync_video, bind. rewrite check_calm by done.
  cbn [format_parent]. rewrite bool_decide_eq_false_2 by done.
  unfold requests_get. cbn [fst] in Hd. by rewrite Hd.
Qed.

(** Videos that are all stored already are passed over. *)
Lemma sync_videos_stored out fuel folder_id videos w :
  drive_faults w = [] ->
  Forall (fun video => stored folder_id video.2 w) videos ->
  for_each videos (sync_video out (S fuel) folder_id) w = (Return tt, w).
Proof.
  intros H Hall. induction Hall as [|video videos Hs _ IH]; [done|].
  cbn [for_each]. unfold bind at 1. by rewrite sync_video_stored.
Qed.

(** C3: for a selected folder whose listing succeeds the driver resolves
    the destination folder once and then handles the videos of the listing
    one by one.  While Drive answers, a video is handled by checking for
    an item [<name>.mp4] in the destination folder: when it is there,
    nothing is fetched and nothing is uploaded; when it is not, the video
    is fetched and, the fetch succeeding, uploaded under that name into
    that folder (a fetch that raises ends the step with its exception and
    nothing is uploaded).  So a listing of which every video but one is
    stored already leads to the upload of that one video only. *)
Theorem rerun_uploads_only_missing (out : Outside) (fuel : nat)
    (folder_id : string) (w : World) :
  drive_faults w = [] ->
  (forall f videos panopto_folder_id w0,
     Enumerator.folder_selected f = true ->
     Enumerator.get_folder_videos (Enumerator.Id f) 50 (sessions out)
     = Return (Some videos) ->
     sync_folder out (S fuel) panopto_folder_id f w0
     = bind (create_folder_if_not_exists out (S fuel) (Enumerator.Name f)
               (Some panopto_folder_id))
         (fun folder_id =>
            for_each videos (sync_video out (S fuel) folder_id))
         (with_folder (Some f) w0)) /\
  (forall video,
     stored folder_id video.2 w ->
     sync_video out (S fuel) folder_id video w = (Return tt, w)) /\
  (forall video,
     ~ stored folder_id video.2 w ->
     download_error out video.1 = None ->
     sync_video out (S fuel) folder_id video w
     = (Return tt, transferred out folder_id video w)) /\
  (forall video e,
     ~ stored folder_id video.2 w ->
     download_error out video.1 = Some e ->
     sync_video out (S fuel) folder_id video w = (Raise e, w)) /\
  (forall before video after,
     Forall (fun v => stored folder_id v.2 w) (before ++ after) ->
     ~ stored folder_id video.2 w ->
     download_error out video.1 = None ->
     for_each (before ++ video :: after) (sync_video out (S fuel) folder_id) w
     = (Return tt, transferred out folder_id video w)).
Proof.
  intros H. split; [|split; [|split; [|split]]].
  - intros f videos pid w0 Hsel Hvideos.
    unfold sync_folder, bind at 1 2, modify, lift.
    by rewrite Hsel, Hvideos.
  - intros video. by apply sync_video_stored.
  - intros video. by apply sync_video_missing.
  - intros video e. by apply sync_video_unfetchable.
  - intros before video after Hall Hs Hd.
    apply Forall_app in Hall as [Hb Ha].
    induction Hb as [|v before Hv _ IH].
    + cbn [app for_each]. unfold bind at 1.
      rewrite sync_video_missing by done.
      apply sync_videos_stored; [done|].
      eapply Forall_impl; [exact Ha|]. intros v Hv.
      cbn [drive_files with_files]. apply Exists_app. by left.
    + cbn [app for_each]. unfold bind at 1.
      by rewrite sync_video_stored.
Qed.

(** The documentation's example: the destination folder holds the items of
    A and B, the listing is A, B, C; only C is fetched and uploaded. *)
Lemma rerun_uploads_only_missing_witness :
  let w := with_files [video_file "id-0" "A.mp4" ["dst"] "bytes of a";
                       video_file "id-1" "B.mp4" ["dst"] "bytes of b"]
             Sample.fresh in
  for_each ([("https://cdn/a.mp4", "A"); ("https://cdn/b.mp4", "B")]
            ++ ("https://cdn/c.mp4", "C") :: [])
    (sync_video Sample.outside 1 "dst") w
  = (Return tt,
     with_files [video_file "id-0" "A.mp4" ["dst"] "bytes of a";
                 video_file "id-1" "B.mp4" ["dst"] "bytes of b";
                 video_file "id-2" "C.mp4" ["dst"]
                   "bytes of https://cdn/c.mp4"]
       (with_fetched ["https://cdn/c.mp4"] Sample.fresh)).
Proof.
  intros w.
  apply (rerun_uploads_only_missing Sample.outside 0 "dst" w eq_refl).
  - cbn [app]. repeat constructor; vm_compute; set_solver.
  - intros H. vm_compute in H.
    repeat match goal with H : Exists _ _ |- _ => inversion H; clear H; subst
    end;
    match goal with H : _ /\ _ |- _ => destruct H as [_ H]; discriminate H end.
  - reflexivity.
Defined.

(** A first run against an empty Drive with nothing to mirror: the attempt
    that creates the top-level folder raises, the decorator sleeps 2 s and
    the second attempt finds the folder. *)
Example main_first_run :
  main Sample.outside 2 [] Sample.fresh
  = (Return tt,
     with_slept [2000]
       (with_files [folder_file "id-0" "Panopto Videos" []] Sample.fresh)).
Proof. reflexivity. Qed.

End SyncDriverFacts.

(* ===================================================================== *)
(** * More on the derived URL *)
(* ===================================================================== *)
Section RewriteLeavesNoManifest.
Import PyStr Enumerator.

Local Abbreviation HLS := ".hls/master.m3u8" (only parsing).
Local Abbreviation rewrite := (replace_from ".hls/master.m3u8" ".mp4" 0).

Lemma contains_cons needle c s :
  contains needle (String c s)
  = String.prefix needle (String c s) || contains needle s.
Proof. done. Qed.

(** What follows a rewritten occurrence cannot complete the pattern: no
    proper tail of the pattern starts the text [.mp4...]. *)
Lemma tail_not_before_mp4 pre q x :
  HLS = pre +:+ q -> pre <> "" -> q <> "" ->
  String.prefix q (".mp4" +:+ x) = false.
Proof.
  intros E Hpre Hq.
  destruct pre as [|a0 pre]; [done|]. clear Hpre.
  change (String a0 pre +:+ q) with (String a0 (pre +:+ q)) in E.
  injection E as _ E.
  do 15 (destruct pre as [|? pre];
         [change ("" +:+ q) with q in E; subst q; reflexivity|];
         change (String ?a pre +:+ q) with (String a (pre +:+ q)) in E;
         injection E as _ E).
  destruct pre; [change ("" +:+ q) with q in E; by subst q|discriminate E].
Qed.

(** A proper tail of the pattern that starts the rewritten text started
    the text itself. *)
Lemma tail_before_rewrite s :
  forall pre q,
    HLS = pre +:+ q -> pre <> "" ->
    String.prefix q (rewrite s) = true -> String.prefix q s = true.
Proof.
  induction s as [|c s IH]; intros pre q E Hpre H; [done|].
  destruct q as [|a q]; [done|].
  destruct (String.prefix HLS (String c s)) eqn:Ep.
  - apply prefix_inv in Ep as [r Er]. rewrite Er in H.
    rewrite replace_from_match in H.
    by rewrite (tail_not_before_mp4 pre (String a q)) in H.
  - rewrite replace_from_no_match in H by done.
    apply prefix_cons in H as [-> H]. apply prefix_cons. split; [done|].
    apply (IH (pre +:+ String c "") q); [| by destruct pre |done].
    rewrite E. clear. induction pre as [|b pre IHp]; [done|].
    change (String b pre +:+ String c q) with (String b (pre +:+ String c q)).
    rewrite IHp. done.
Qed.

Lemma rewrite_has_no_manifest_aux n :
  forall s, (String.length s <= n)%nat -> contains HLS (rewrite s) = false.
Proof.
  induction n as [|n IH]; intros s Hn.
  - destruct s; [done|simpl in Hn; lia].
  - destruct s as [|c s]; [done|].
    destruct (String.prefix HLS (String c s)) eqn:Ep.
    + apply prefix_inv in Ep as [r Er]. rewrite Er.
      rewrite replace_from_match.
      assert (contains HLS (rewrite r) = false) as Hr.
      { apply IH.
        assert (String.length (String c s) = (16 + String.length r)%nat) as El
            by (rewrite Er; reflexivity).
        lia. }
      change (".mp4" +:+ rewrite r)
        with (String "." (String "m" (String "p" (String "4" (rewrite r))))).
      rewrite !contains_cons, Hr. reflexivity.
    + rewrite replace_from_no_match by done.
      rewrite contains_cons, (IH s) by (simpl in Hn; lia).
      rewrite orb_false_r.
      destruct (String.prefix HLS (String c (rewrite s))) eqn:E; [|done].
      apply prefix_cons in E as [<- E].
      apply (tail_before_rewrite s "." "hls/master.m3u8") in E; [|done..].
      assert (String.prefix HLS (String "." s) = true) by by apply prefix_cons.
      congruence.
Qed.

(** X1: the URL derived for a video never contains [.hls/master.m3u8],
    whatever the manifest URL was. *)
Theorem derived_url_has_no_manifest (video : Session) :
  contains ".hls/master.m3u8" (video_info_of video).1 = false.
Proof.
  unfold video_info_of. cbn [fst].
  change (replace HLS ".mp4") with rewrite.
  by apply (rewrite_has_no_manifest_aux (String.length (IosVideoUrl video))).
Qed.

(** X2: a manifest URL in which [.hls/master.m3u8] does not occur is
    passed on as it is, with the session name beside it. *)
Theorem plain_url_is_kept (video : Session) :
  contains ".hls/master.m3u8" (IosVideoUrl video) = false ->
  video_info_of video = (IosVideoUrl video, SessionName video).
Proof.
  intros H. unfold video_info_of. f_equal.
  change (replace HLS ".mp4") with rewrite.
  by apply replace_from_absent.
Qed.

Lemma plain_url_is_kept_witness :
  video_info_of {| IosVideoUrl := "https://cdn/v/42.mp4";
                   SessionName := "Lecture 1" |}
  = ("https://cdn/v/42.mp4", "Lecture 1").
Proof.
  apply (plain_url_is_kept {| IosVideoUrl := "https://cdn/v/42.mp4";
                              SessionName := "Lecture 1" |}).
  reflexivity.
Defined.

End RewriteLeavesNoManifest.

(* ===================================================================== *)
(** * More on the token store *)
(* ===================================================================== *)
Section TokenStoreMore.
Import TokenStore.

(** X3: when [google_drive_auth] raises, whether the refresh or the
    browser flow failed, [token.pickle] is as it was and nothing has been
    written. *)
Theorem failed_auth_writes_nothing (oauth : OAuth) (d d' : Disk) (e : exn) :
  google_drive_auth oauth d = (Raise e, d') -> d' = d.
Proof.
  unfold google_drive_auth, bind, get, pickle_dump, modify, lift, ret.
  destruct (token_pickle d) as [c0|].
  - destruct (valid c0); cbn [negb]; [done|].
    destruct (expired c0 && truthy (refresh_token c0)).
    + destruct (refresh oauth c0); by intros [= <-].
    + destruct (run_local_server oauth); by intros [= <-].
  - destruct (run_local_server oauth); by intros [= <-].
Qed.

Lemma failed_auth_writes_nothing_witness :
  let c := {| token := "old"; valid := false; expired := true;
              refresh_token := Some "r" |} in
  {| token_pickle := Some c; dumps := [] |}
  = {| token_pickle := Some c; dumps := [] |}.
Proof.
  intros c.
  apply (failed_auth_writes_nothing
           {| refresh := fun _ => Raise RefreshError;
              run_local_server := Return c |}
           {| token_pickle := Some c; dumps := [] |}
           {| token_pickle := Some c; dumps := [] |} RefreshError).
  reflexivity.
Defined.

Lemma auth_result (oauth : OAuth) (d d' : Disk) (c : Credentials) :
  google_drive_auth oauth d = (Return c, d') -> token_pickle d' = Some c.
Proof.
  unfold google_drive_auth, bind, get, pickle_dump, modify, lift, ret.
  destruct (token_pickle d) as [c0|] eqn:E.
  - destruct (valid c0); cbn [negb].
    + by intros [= <- <-].
    + destruct (expired c0 && truthy (refresh_token c0)).
      * destruct (refresh oauth c0); by intros [= <- <-].
      * destruct (run_local_server oauth); by intros [= <- <-].
  - destruct (run_local_server oauth); by intros [= <- <-].
Qed.

(** X4: once [google_drive_auth] has returned a valid credential, calling
    it again returns the same credential and leaves [token.pickle] alone,
    whatever the authorisation server would answer. *)
Theorem auth_again_reuses_token (oauth oauth' : OAuth) (d d' : Disk)
    (c : Credentials) :
  google_drive_auth oauth d = (Return c, d') ->
  valid c = true ->
  google_drive_auth oauth' d' = (Return c, d').
Proof.
  intros H Hv. apply auth_result in H.
  unfold google_drive_auth, bind, get. by rewrite H, Hv.
Qed.

Lemma auth_again_reuses_token_witness :
  let c' := {| token := "new"; valid := true; expired := false;
               refresh_token := Some "r" |} in
  google_drive_auth
    {| refresh := fun _ => Raise RefreshError;
       run_local_server := Raise (FileNotFoundError "credentials.json") |}
    {| token_pickle := Some c'; dumps := [c'] |}
  = (Return c', {| token_pickle := Some c'; dumps := [c'] |}).
Proof.
  intros c'.
  apply (auth_again_reuses_token
           {| refresh := fun _ => Return c';
              run_local_server := Raise (FileNotFoundError
                                           "credentials.json") |}
           _
           {| token_pickle :=
                Some {| token := "old"; valid := false; expired := true;
                        refresh_token := Some "r" |};
              dumps := [] |});
    reflexivity.
Defined.

End TokenStoreMore.

(* ===================================================================== *)
(** * More on the reconciler *)
(* ===================================================================== *)
Section CheckThroughFaults.
Import Drive Retrying Reconciler SyncDriver Mirror.

Local Abbreviation served w := (with_faults (tail (drive_faults w)) w).

Lemma check_once_served name parent w :
  head (drive_faults w) <> Some true ->
  check_if_file_exists_once name parent w
  = (Return (bool_decide (stored (format_parent parent) name w)), served w).
Proof.
  intros H. unfold check_if_file_exists_once, bind.
  rewrite files_list_served by done. unfold stored.
  destruct (filter _ (drive_files w)) as [|f l] eqn:E; cbn [fmap list_fmap].
  - apply filter_nil_not_exists in E. by rewrite bool_decide_eq_false_2.
  - by rewrite bool_decide_eq_true_2 by by eapply exists_filter.
Qed.

Lemma check_through name parent :
  forall l w k fuel,
    drive_faults w = l -> (length l < fuel)%nat ->
    exists w',
      retry_call 1000 10000 fuel k
        (check_if_file_exists_once name parent) w
      = (Return (bool_decide (stored (format_parent parent) name w)), w') /\
      drive_files w' = drive_files w /\ fetched w' = fetched w /\
      folder w' = folder w /\
      (length (drive_faults w') <= length l)%nat.
Proof.
  induction l as [|[] l IH]; intros w k [|fuel] Hl Hfuel;
    simpl in Hfuel; try lia.
  - exists w. split; [|by rewrite Hl].
    apply retry_call_return. rewrite check_once_served by by rewrite Hl.
    f_equal. destruct w; simpl in *; by subst.
  - destruct (check_once_fault name parent w l Hl) as [e He].
    rewrite (retry_call_raise _ _ _ _ _ _ _ _ He).
    edestruct (IH (with_slept
                     (slept (with_faults l w) ++
                      [exponential_sleep 1000 10000 k]) (with_faults l w))
                 (k + 1) fuel) as (w' & Hr & Hf & Hd & Hv & Hn);
      [done|lia|].
    exists w'. split; [exact Hr|]. repeat split; try done. simpl. lia.
  - exists (served w). split.
    + apply retry_call_return. apply check_once_served. by rewrite Hl.
    + repeat split; try done. rewrite Hl. simpl. lia.
Qed.

(** X5: [check_if_file_exists] answers whether an item called
    [<file_name>.mp4] lists the folder among its parents, whatever requests
    fail on the way, and neither adds a file nor fetches anything. *)
Theorem check_if_file_exists_correct (fuel : nat) (file_name : string)
    (parent_folder : option string) (w : World) :
  (length (drive_faults w) < fuel)%nat ->
  exists w',
    check_if_file_exists fuel file_name parent_folder w
    = (Return (bool_decide
                 (stored (format_parent parent_folder) file_name w)), w') /\
    drive_files w' = drive_files w /\ fetched w' = fetched w.
Proof.
  intros Hfuel.
  destruct (check_through file_name parent_folder (drive_faults w) w 1 fuel)
    as (w' & Hr & Hf & Hd & _); [done..|].
  by exists w'.
Qed.

Lemma check_if_file_exists_correct_witness :
  exists w',
    check_if_file_exists 3 "Lecture 1" (Some "dst")
      (with_faults [true; false] Scenario.half_done)
    = (Return true, w') /\
    drive_files w' = drive_files Scenario.half_done /\
    fetched w' = [].
Proof.
  apply (check_if_file_exists_correct 3 "Lecture 1" (Some "dst")
           (with_faults [true; false] Scenario.half_done)).
  simpl. lia.
Defined.

(** X6: called without a parent, the check searches the folder whose id is
    the text [None]; unless a file lists that id among its parents the
    answer is [False], whatever Drive holds. *)
Theorem check_without_parent_finds_nothing (fuel : nat) (file_name : string)
    (w : World) :
  (length (drive_faults w) < fuel)%nat ->
  Forall (fun f => "None" ∉ parents f) (drive_files w) ->
  (check_if_file_exists fuel file_name None w).1 = Return false.
Proof.
  intros Hfuel Hnone. unfold check_if_file_exists, retry.
  destruct (check_through file_name None (drive_faults w) w 1 fuel)
    as (w' & -> & _); [done..|].
  cbn [fst]. f_equal. apply bool_decide_eq_false_2.
  unfold stored. intros Hex. apply Exists_exists in Hex as (f & Hin & Hp & _).
  rewrite Forall_forall in Hnone. by apply (Hnone f).
Qed.

Lemma check_without_parent_finds_nothing_witness :
  (check_if_file_exists 1 "Lecture 1" None Scenario.half_done).1
  = Return false.
Proof.
  apply (check_without_parent_finds_nothing 1 "Lecture 1"
           Scenario.half_done).
  - simpl. lia.
  - repeat constructor. intros H. apply list_elem_of_singleton in H.
    discriminate H.
Defined.

(** X7: a video whose item is in the destination folder is passed over
    even when the check has to be retried: nothing is fetched, no file is
    added. *)
Theorem stored_video_is_skipped (out : Outside) (fuel : nat)
    (folder_id : string) (video : string * string) (w : World) :
  (length (drive_faults w) < fuel)%nat ->
  stored folder_id video.2 w ->
  exists w',
    sync_video out fuel folder_id video w = (Return tt, w') /\
    drive_files w' = drive_files w /\ fetched w' = fetched w.
Proof.
  intros Hfuel Hs. destruct video as [video_url video_name].
  destruct (check_through video_name (Some folder_id) (drive_faults w) w 1
              fuel) as (w' & Hr & Hf & Hd & _); [done..|].
  exists w'. unfold sync_video, bind, check_if_file_exists, retry.
  rewrite Hr.
  cbn [format_parent]. by rewrite bool_decide_eq_true_2.
Qed.

Lemma stored_video_is_skipped_witness :
  exists w',
    sync_video Sample.outside 3 "dst" ("https://cdn/1.mp4", "Lecture 1")
      (with_faults [true; true] Scenario.half_done)
    = (Return tt, w') /\
    drive_files w' = drive_files Scenario.half_done /\
    fetched w' = [].
Proof.
  apply (stored_video_is_skipped Sample.outside 3 "dst"
           ("https://cdn/1.mp4", "Lecture 1")
           (with_faults [true; true] Scenario.half_done)).
  - simpl. lia.
  - constructor. split; [|reflexivity]. by apply list_elem_of_singleton.
Defined.

End CheckThroughFaults.

Section CreateMore.
Import Drive Retrying Reconciler SyncDriver Mirror.

(** X8: whatever requests fail on the way, [create_folder_if_not_exists]
    returns the id of the first folder of that name that Drive lists after
    the call, and the files Drive held before are still there, in place. *)
Theorem returned_id_names_listed_folder (out : Outside) (fuel : nat)
    (name : string) (parent : option string) (w : World) :
  (length (drive_faults w) + 2 <= fuel)%nat ->
  exists id w' f rest,
    create_folder_if_not_exists out fuel name parent w = (Return id, w') /\
    filter (matches (FolderNamed name)) (drive_files w') = f :: rest /\
    file_id f = id /\
    drive_files w `prefix_of` drive_files w'.
Proof.
  intros Hfuel. unfold create_folder_if_not_exists, retry.
  destruct (create_through out name parent (length (drive_faults w)) w 1 fuel)
    as (id & w' & Hr & _ & Hf & f & rest & E & Hid); [done|lia|].
  exists id, w', f, rest. repeat split; try done.
  rewrite Hf. destruct (decide _); [done|]. by apply prefix_app_r.
Qed.

Lemma returned_id_names_listed_folder_witness :
  exists id w' f rest,
    create_folder_if_not_exists Sample.outside 4 "Panopto Videos" None
      (with_faults [false; true] Sample.fresh) = (Return id, w') /\
    filter (matches (FolderNamed "Panopto Videos")) (drive_files w')
    = f :: rest /\
    file_id f = id /\
    [] `prefix_of` drive_files w'.
Proof.
  apply (returned_id_names_listed_folder Sample.outside 4 "Panopto Videos"
           None (with_faults [false; true] Sample.fresh)).
  simpl. lia.
Defined.

(** X9: while Drive answers, the call that has to create the folder
    returns the new id and creates one folder; with the module-level
    [folder] unbound it does so on its second attempt, after one sleep of
    2000 ms, and with [folder] bound on its first, without any sleep. *)
Theorem creation_costs_one_retry (out : Outside) (fuel : nat)
    (name : string) (parent : option string) (w : World) :
  drive_faults w = [] ->
  ~ Exists (matches (FolderNamed name)) (drive_files w) ->
  create_folder_if_not_exists out (S (S fuel)) name parent w
  = (Return (new_id out (drive_files w)),
     with_slept (slept w ++ if folder w is None then [2000] else [])
       (with_files
          (drive_files w ++
           [folder_file (new_id out (drive_files w)) name
              (option_list parent)])
          w)).
Proof.
  intros H N. apply filter_nil_not_exists in N.
  unfold create_folder_if_not_exists, retry.
  destruct (folder w) as [x|] eqn:Hf.
  - rewrite create_created_bound by (done || by rewrite Hf).
    by rewrite app_nil_r.
  - by rewrite create_created_unbound.
Qed.

Lemma creation_costs_one_retry_witness :
  create_folder_if_not_exists Sample.outside 2 "Panopto Videos" None
    Sample.fresh
  = (Return "id-0",
     with_slept [2000]
       (with_files [folder_file "id-0" "Panopto Videos" []] Sample.fresh)).
Proof.
  apply (creation_costs_one_retry Sample.outside 0 "Panopto Videos" None
           Sample.fresh).
  - reflexivity.
  - intros H. inversion H.
Defined.

End CreateMore.

(* ===================================================================== *)
(** * What a whole run respects *)
(* ===================================================================== *)

Section RunInvariant.
Import Drive Retrying Reconciler SyncDriver.

(** A relation between the state before and after that every step of a
    run respects is respected by the run. *)
Variable R : World -> World -> Prop.
Hypothesis R_refl : forall w, R w w.
Hypothesis R_trans : forall w1 w2 w3, R w1 w2 -> R w2 w3 -> R w1 w3.
Hypothesis R_faults : forall w, R w (with_faults (tail (drive_faults w)) w).
Hypothesis R_append :
  forall more w, R w (with_files (drive_files w ++ more) w).
Hypothesis R_sleep :
  forall k w,
    R w (with_slept (slept w ++ [exponential_sleep 1000 10000 k]) w).
Hypothesis R_fetch : forall u w, R w (with_fetched (fetched w ++ [u]) w).
Hypothesis R_folder : forall f w, R w (with_folder f w).

Local Abbreviation keeps m := (forall w, R w (m w).2) (only parsing).

Lemma keeps_bind {A B} (m : M World A) (k : A -> M World B) :
  keeps m -> (forall a, keeps (k a)) -> keeps (bind m k).
Proof.
  intros Hm Hk w. unfold bind. specialize (Hm w).
  destruct (m w) as [[a|e|] w1]; cbn [snd] in *; [|done..].
  eapply R_trans; [exact Hm|apply Hk].
Qed.

Lemma keeps_for_each {A} (body : A -> M World unit) xs :
  (forall x, keeps (body x)) -> keeps (for_each xs body).
Proof.
  intros Hb. induction xs as [|x xs IH]; [exact R_refl|].
  cbn [for_each]. apply keeps_bind; [apply Hb|by intros _].
Qed.

Lemma keeps_execute {A} (request : list File -> A * list File) :
  (forall fs, exists more, (request fs).2 = fs ++ more) ->
  keeps (execute request).
Proof.
  intros Hreq w. unfold execute.
  destruct (Hreq (drive_files w)) as [more Hmore].
  pose proof (R_faults w) as Hf.
  destruct (drive_faults w) as [|[] later]; [|exact Hf|];
    destruct (request (drive_files w)) as [a fs]; cbn [snd] in *; subst fs.
  - apply R_append.
  - eapply R_trans; [exact Hf|].
    apply (R_append more (with_faults later w)).
Qed.

Lemma keeps_files_list q : keeps (files_list q).
Proof.
  apply keeps_execute. intros fs. exists []. cbn [snd]. by rewrite app_nil_r.
Qed.

Lemma keeps_files_create out name mime ps md :
  keeps (files_create out name mime ps md).
Proof. apply keeps_execute. intros fs. by eexists. Qed.

Lemma keeps_retry_call {A} (fn : M World A) :
  keeps fn -> forall fuel k, keeps (retry_call 1000 10000 fuel k fn).
Proof.
  intros Hfn. induction fuel as [|fuel IH]; intros k w; [exact (R_refl w)|].
  cbn [retry_call]. specialize (Hfn w).
  destruct (fn w) as [[a|e|] w1]; cbn [snd] in *; [done| |done].
  unfold bind, sleep, modify.
  eapply R_trans; [exact Hfn|]. eapply R_trans; [apply (R_sleep k)|apply IH].
Qed.

Lemma keeps_create out fuel name parent :
  keeps (create_folder_if_not_exists out fuel name parent).
Proof.
  apply keeps_retry_call. unfold create_folder_if_not_exists_once.
  apply keeps_bind; [apply keeps_files_list|]. intros [|first ?]; [|exact R_refl].
  apply keeps_bind; [apply keeps_files_create|]. intros folder_id.
  apply keeps_bind; [exact R_refl|]. intros w0 w. by destruct (folder w0).
Qed.

Lemma keeps_check fuel name parent :
  keeps (check_if_file_exists fuel name parent).
Proof.
  apply keeps_retry_call. unfold check_if_file_exists_once.
  apply keeps_bind; [apply keeps_files_list|]. intros [|? ?]; exact R_refl.
Qed.

Lemma keeps_sync_video out fuel folder_id video :
  keeps (sync_video out fuel folder_id video).
Proof.
  destruct video as [video_url video_name]. unfold sync_video.
  apply keeps_bind; [apply keeps_check|]. intros [|]; [exact R_refl|].
  apply keeps_bind.
  { intros w. unfold requests_get.
    destruct (download_error out video_url); [apply R_refl|apply R_fetch]. }
  intros g.
  apply keeps_bind; [apply keeps_files_create|]. intros _. exact R_refl.
Qed.

Lemma keeps_sync_folder out fuel pid f : keeps (sync_folder out fuel pid f).
Proof.
  unfold sync_folder.
  apply keeps_bind; [intros w; apply R_folder|]. intros _.
  destruct (Enumerator.folder_selected f); [|exact R_refl].
  apply keeps_bind; [exact R_refl|]. intros [videos|]; [|exact R_refl].
  apply keeps_bind; [apply keeps_create|]. intros folder_id.
  apply keeps_for_each. intros video. apply keeps_sync_video.
Qed.

Lemma keeps_main out fuel folders : keeps (main out fuel folders).
Proof.
  unfold main. apply keeps_bind; [apply keeps_create|]. intros pid.
  apply keeps_for_each. intros f. apply keeps_sync_folder.
Qed.

End RunInvariant.

Section RunProperties.
Import Drive Retrying Reconciler SyncDriver Mirror.

(** X11: a run only adds: whatever its outcome, the files Drive held
    before are still there in the same places, followed by what the run
    created; the same holds for the record of downloads and of sleeps. *)
Theorem run_only_appends (out : Outside) (fuel : nat)
    (folders : list Enumerator.Folder) (w : World) :
  drive_files w `prefix_of` drive_files (main out fuel folders w).2 /\
  fetched w `prefix_of` fetched (main out fuel folders w).2 /\
  slept w `prefix_of` slept (main out fuel folders w).2.
Proof.
  apply (keeps_main
           (fun w w' => drive_files w `prefix_of` drive_files w' /\
                        fetched w `prefix_of` fetched w' /\
                        slept w `prefix_of` slept w')).
  - done.
  - intros w1 w2 w3 (?&?&?) (?&?&?). repeat split; by etrans.
  - done.
  - intros more w0. repeat split; try done. by apply prefix_app_r.
  - intros k w0. repeat split; try done. by apply prefix_app_r.
  - intros u w0. repeat split; try done. by apply prefix_app_r.
  - done.
Qed.

(** X12: no wait made during a run is longer than 10000 ms. *)
Theorem run_waits_are_capped (out : Outside) (fuel : nat)
    (folders : list Enumerator.Folder) (w : World) :
  Forall (fun ms => 0 <= ms <= 10000) (slept w) ->
  Forall (fun ms => 0 <= ms <= 10000) (slept (main out fuel folders w).2).
Proof.
  apply (keeps_main
           (fun w w' => Forall (fun ms => 0 <= ms <= 10000) (slept w) ->
                        Forall (fun ms => 0 <= ms <= 10000) (slept w')));
    try done.
  - intros w1 w2 w3 H12 H23 H. auto.
  - intros k w0 H. cbn [slept with_slept]. apply Forall_app. split; [done|].
    apply Forall_singleton. apply exponential_sleep_bounds.
Qed.

Lemma run_waits_are_capped_witness :
  Forall (fun ms => 0 <= ms <= 10000)
    (slept (main Scenario.outside 2 [Scenario.cse143] Sample.fresh).2).
Proof.
  apply (run_waits_are_capped Scenario.outside 2 [Scenario.cse143]
           Sample.fresh).
  constructor.
Defined.

(** X14: an upload that fails is not tried again and ends the loop: the
    video, whose fetch succeeded, has been fetched, no file is added and
    the videos after it are not looked at. *)
Theorem failed_upload_ends_the_run (out : Outside) (fuel : nat)
    (folder_id : string) (video : string * string)
    (rest : list (string * string)) (later : list bool) (w : World) :
  drive_faults w = false :: true :: later ->
  ~ stored folder_id video.2 w ->
  download_error out video.1 = None ->
  for_each (video :: rest) (sync_video out (S fuel) folder_id) w
  = (Raise HttpError,
     with_fetched (fetched w ++ [video.1]) (with_faults later w)).
Proof.
  intros Hw Hs Hd. destruct video as [video_url video_name].
  cbn [for_each]. unfold bind at 1, sync_video, bind at 1.
  unfold check_if_file_exists, retry.
  rewrite (retry_call_return _ _ _ _ _ _ _ _
             (check_once_served video_name (Some folder_id) w
                ltac:(by rewrite Hw))).
  rewrite bool_decide_eq_false_2 by done.
  unfold bind, requests_get, files_create. cbn [fst] in Hd. rewrite Hd.
  rewrite (execute_fault _ _ later) by (simpl; by rewrite Hw).
  by rewrite Hw.
Qed.

Lemma failed_upload_ends_the_run_witness :
  for_each [("https://cdn/2.mp4", "Lecture 2");
            ("https://cdn/3.mp4", "Lecture 3")]
    (sync_video Sample.outside 1 "dst")
    (with_faults [false; true] Scenario.half_done)
  = (Raise HttpError,
     with_fetched ["https://cdn/2.mp4"] Scenario.half_done).
Proof.
  apply (failed_upload_ends_the_run Sample.outside 0 "dst"
           ("https://cdn/2.mp4", "Lecture 2")
           [("https://cdn/3.mp4", "Lecture 3")] []
           (with_faults [false; true] Scenario.half_done)).
  - reflexivity.
  - intros H. inversion H as [? ? [_ Hn]|? ? Hn]; subst.
    + discriminate Hn.
    + inversion Hn.
  - reflexivity.
Defined.

(** X15: a listing answered with status 200 whose body is not of the
    expected shape ends the run at that folder with the exception that
    reading the body raises; the folders after it are not looked at and
    Drive is not asked anything for it. *)
Theorem unreadable_listing_ends_the_run (out : Outside) (fuel : nat)
    (panopto_folder_id : string) (f : Enumerator.Folder)
    (rest : list Enumerator.Folder) (w : World) :
  Enumerator.folder_selected f = true ->
  Enumerator.status_code (sessions out 50 (Enumerator.Id f)) = 200 ->
  Enumerator.results (sessions out 50 (Enumerator.Id f)) = None ->
  for_each (f :: rest) (sync_folder out fuel panopto_folder_id) w
  = (Raise (Enumerator.body_error (sessions out 50 (Enumerator.Id f))),
     with_folder (Some f) w).
Proof.
  intros Hsel H200 Hbody. cbn [for_each].
  unfold bind at 1, sync_folder, bind, modify, lift,
    Enumerator.get_folder_videos.
  by rewrite Hsel, H200, Hbody.
Qed.

Lemma unreadable_listing_ends_the_run_witness :
  for_each [Scenario.cse143; Scenario.cse143]
    (sync_folder Scenario.unreadable 2 "id-0") Sample.fresh
  = (Raise (KeyError "d"),
     with_folder (Some Scenario.cse143) Sample.fresh).
Proof.
  apply (unreadable_listing_ends_the_run Scenario.unreadable 2 "id-0"
           Scenario.cse143 [Scenario.cse143] Sample.fresh);
    reflexivity.
Defined.

End RunProperties.

(* ===================================================================== *)
(** * Running again *)
(* ===================================================================== *)

Section Rerun.
Import Drive Retrying Reconciler SyncDriver Mirror.

Lemma calm_create out fuel name parent w :
  drive_faults w = [] ->
  drive_faults (create_folder_if_not_exists out fuel name parent w).2 = [].
Proof.
  apply (keeps_create
           (fun w w' => drive_faults w = [] -> drive_faults w' = []));
    try done.
  - intros w1 w2 w3 H12 H23 H. auto.
  - intros w0 H. cbn [drive_faults with_faults]. by rewrite H.
Qed.

Lemma first_match_stays q (fs fs' : list File) d rest :
  filter (matches q) fs = d :: rest -> fs `prefix_of` fs' ->
  exists rest', filter (matches q) fs' = d :: rest'.
Proof.
  intros E [more ->]. rewrite filter_app, E. by eexists.
Qed.

Lemma stored_stays folder_id name w w' :
  stored folder_id name w -> drive_files w `prefix_of` drive_files w' ->
  stored folder_id name w'.
Proof.
  unfold stored. intros H [more ->]. apply Exists_app. by left.
Qed.

Lemma mirrored_stays out f w w' :
  mirrored out f w -> drive_files w `prefix_of` drive_files w' ->
  mirrored out f w'.
Proof.
  unfold mirrored. intros H Hp.
  destruct (Enumerator.folder_selected f); [|done].
  destruct (Enumerator.get_folder_videos _ _ _) as [[videos|]| |]; try done.
  destruct H as (d & rest & E & Hall).
  destruct (first_match_stays _ _ _ _ _ E Hp) as [rest' E'].
  exists d, rest'. split; [done|].
  eapply Forall_impl; [exact Hall|]. intros v Hv.
  by apply (stored_stays _ _ w).
Qed.

(** While Drive answers, a step of the loop over a listing that returns
    leaves its video stored. *)
Lemma sync_video_calm out fuel folder_id video w :
  drive_faults w = [] ->
  exists o w',
    sync_video out (S fuel) folder_id video w = (o, w')
    /\ drive_faults w' = []
    /\ drive_files w `prefix_of` drive_files w'
    /\ (o = Return tt -> stored folder_id video.2 w')
    /\ (download_error out video.1 = None -> o = Return tt).
Proof.
  intros H.
  destruct (decide (stored folder_id video.2 w)) as [Hs|Hs].
  - exists (Return tt), w. by rewrite sync_video_stored.
  - destruct (download_error out video.1) as [e|] eqn:Hd.
    + exists (Raise e), w. by rewrite (sync_video_unfetchable _ _ _ _ _ e).
    + eexists _, _. rewrite sync_video_missing by done.
      split; [done|]. split; [done|].
      split; [by apply prefix_app_r|]. split; [|done]. intros _.
      unfold stored. cbn [drive_files with_files].
      apply Exists_app. right. constructor. split; [|done].
      cbn. by apply list_elem_of_singleton.
Qed.

(** While Drive answers, a loop over a listing that returns leaves every
    listed video stored; it returns when every fetch succeeds. *)
Lemma sync_videos_calm out fuel folder_id videos :
  forall w,
    drive_faults w = [] ->
    exists o w',
      for_each videos (sync_video out (S fuel) folder_id) w = (o, w')
      /\ drive_faults w' = []
      /\ drive_files w `prefix_of` drive_files w'
      /\ (o = Return tt ->
          Forall (fun video => stored folder_id video.2 w') videos)
      /\ (Forall (fun video => download_error out video.1 = None) videos ->
          o = Return tt).
Proof.
  induction videos as [|video videos IH]; intros w H.
  - by exists (Return tt), w.
  - cbn [for_each]. unfold bind at 1.
    destruct (sync_video_calm out fuel folder_id video w H)
      as (o1 & w1 & Hr1 & Hc1 & Hp1 & Hs1 & Hd1).
    rewrite Hr1. destruct o1 as [[]|e|].
    + destruct (IH w1 Hc1) as (o & w' & Hr & Hc & Hp & Hall & Hd).
      exists o, w'. split; [done|]. split; [done|]. split; [by etrans|].
      split.
      * intros Ho. constructor; [|by apply Hall].
        by apply (stored_stays _ _ w1); [apply Hs1|].
      * intros Hok. apply Forall_cons in Hok as [_ Hok]. by apply Hd.
    + exists (Raise e), w1. repeat split; try done.
      intros Hok. apply Forall_cons in Hok as [Hok _]. by apply Hd1.
    + exists OutOfFuel, w1. repeat split; try done.
      intros Hok. apply Forall_cons in Hok as [Hok _]. by apply Hd1.
Qed.

(** While Drive answers and the variable [folder] is bound, as in the
    folder loop, one attempt settles the destination folder. *)
Lemma create_calm_bound out fuel name parent w :
  drive_faults w = [] -> is_Some (folder w) ->
  exists id w' d rest,
    create_folder_if_not_exists out (S fuel) name parent w = (Return id, w')
    /\ drive_faults w' = []
    /\ drive_files w `prefix_of` drive_files w'
    /\ filter (matches (FolderNamed name)) (drive_files w') = d :: rest
    /\ file_id d = id.
Proof.
  intros H Hf. unfold create_folder_if_not_exists, retry.
  destruct (filter (matches (FolderNamed name)) (drive_files w))
    as [|d rest] eqn:E.
  - rewrite create_created_bound by done.
    eexists _, _, _, []. split; [done|]. split; [done|].
    split; [by apply prefix_app_r|].
    split; [by apply filter_created|done].
  - rewrite (create_found _ _ _ _ _ _ d rest) by done.
    by exists (file_id d), w, d, rest.
Qed.

(** A call that returns while Drive answers returns the id of the first
    folder of that name. *)
Lemma create_calm_returns out fuel name parent w id w' :
  drive_faults w = [] ->
  create_folder_if_not_exists out fuel name parent w = (Return id, w') ->
  exists d rest,
    filter (matches (FolderNamed name)) (drive_files w') = d :: rest /\
    file_id d = id.
Proof.
  intros H. unfold create_folder_if_not_exists, retry.
  destruct fuel as [|fuel]; [done|].
  destruct (filter (matches (FolderNamed name)) (drive_files w))
    as [|d rest] eqn:E.
  - destruct (folder w) as [x|] eqn:Hf.
    + rewrite create_created_bound by (done || by rewrite Hf).
      intros [= <- <-]. eexists _, []. split; [by apply filter_created|done].
    + destruct fuel as [|fuel].
      * erewrite retry_call_raise;
          [|rewrite create_once_created by done; by rewrite Hf].
        done.
      * rewrite create_created_unbound by done.
        intros [= <- <-]. eexists _, [].
        split; [by apply filter_created|done].
  - rewrite (create_found _ _ _ _ _ _ d rest) by done.
    intros [= <- <-]. by exists d, rest.
Qed.

Lemma sync_folder_calm out fuel pid f w :
  drive_faults w = [] ->
  exists o w',
    sync_folder out (S fuel) pid f w = (o, w')
    /\ drive_faults w' = []
    /\ drive_files w `prefix_of` drive_files w'
    /\ (o = Return tt -> mirrored out f w').
Proof.
  intros H. unfold sync_folder, bind at 1, modify, mirrored.
  destruct (Enumerator.folder_selected f); [|by eexists _, _].
  unfold bind at 1, lift.
  destruct (Enumerator.get_folder_videos _ _ _) as [[videos|]|e|];
    [|by eexists _, _..].
  set (w0 := with_folder (Some f) w).
  destruct (create_calm_bound out fuel (Enumerator.Name f) (Some pid) w0)
    as (id & w1 & d & rest & Hr & Hc & Hp & E & <-); [done|by eexists|].
  unfold bind. rewrite Hr.
  destruct (sync_videos_calm out fuel (file_id d) videos w1 Hc)
    as (o & w' & Hr' & Hc' & Hp' & Hall & _).
  exists o, w'. split; [done|]. split; [done|].
  split; [by etrans|]. intros Ho.
  destruct (first_match_stays _ _ _ _ _ E Hp') as [rest' E'].
  exists d, rest'. split; [done|]. by apply Hall.
Qed.

(** While Drive answers and every fetch succeeds, a selected folder whose
    videos were listed is mirrored when its step returns, and it
    returns. *)
Lemma sync_folder_syncs out fuel pid f videos w :
  Enumerator.folder_selected f = true ->
  Enumerator.get_folder_videos (Enumerator.Id f) 50 (sessions out)
  = Return (Some videos) ->
  drive_faults w = [] ->
  Forall (fun video => download_error out video.1 = None) videos ->
  exists w' d rest,
    sync_folder out (S fuel) pid f w = (Return tt, w') /\
    filter (matches (FolderNamed (Enumerator.Name f))) (drive_files w')
    = d :: rest /\
    Forall (fun video => stored (file_id d) video.2 w') videos.
Proof.
  intros Hsel Hlist H Hok.
  unfold sync_folder, bind at 1, modify. rewrite Hsel.
  unfold bind at 1, lift. rewrite Hlist.
  set (w0 := with_folder (Some f) w).
  destruct (create_calm_bound out fuel (Enumerator.Name f) (Some pid) w0)
    as (id & w1 & d & rest & Hr & Hc & Hp & E & <-); [done|by eexists|].
  unfold bind. rewrite Hr.
  destruct (sync_videos_calm out fuel (file_id d) videos w1 Hc)
    as (o & w' & Hr' & Hc' & Hp' & Hall & Hret).
  rewrite Hr', (Hret Hok) in *.
  destruct (first_match_stays _ _ _ _ _ E Hp') as [rest' E'].
  exists w', d, rest'. split; [done|]. split; [done|]. by apply Hall.
Qed.

Lemma sync_folders_calm out fuel pid folders :
  forall w w',
    drive_faults w = [] ->
    for_each folders (sync_folder out (S fuel) pid) w = (Return tt, w') ->
    drive_faults w' = [] /\
    drive_files w `prefix_of` drive_files w' /\
    Forall (fun f => mirrored out f w') folders.
Proof.
  induction folders as [|f folders IH]; intros w w' H.
  - by intros [= <-].
  - cbn [for_each]. unfold bind at 1.
    destruct (sync_folder_calm out fuel pid f w H)
      as (o & w1 & Hr & Hc & Hp & Hm).
    rewrite Hr. destruct o as [[]|e|]; [|done..].
    intros Hrest. destruct (IH w1 w' Hc Hrest) as (Hc' & Hp' & Hall).
    split; [done|]. split; [by etrans|].
    constructor; [|done]. by apply (mirrored_stays _ _ w1); [apply Hm|].
Qed.

(** What a run that returns while Drive answers leaves behind. *)
Lemma main_calm_mirrors (out : Outside) (fuel : nat)
    (folders : list Enumerator.Folder) (w w' : World) :
  drive_faults w = [] ->
  main out fuel folders w = (Return tt, w') ->
  drive_faults w' = [] /\
  (exists top rest,
     filter (matches (FolderNamed GOOGLE_DRIVE_FOLDER_NAME)) (drive_files w')
     = top :: rest) /\
  Forall (fun f => mirrored out f w') folders.
Proof.
  intros H. unfold main, bind.
  destruct (create_folder_if_not_exists out fuel GOOGLE_DRIVE_FOLDER_NAME
              None w) as [[pid| |] w1] eqn:Hr; [|done..].
  pose proof (calm_create out fuel GOOGLE_DRIVE_FOLDER_NAME None w H) as Hc.
  rewrite Hr in Hc. cbn [snd] in Hc.
  destruct (create_calm_returns _ _ _ _ _ _ _ H Hr) as (d & rest & E & _).
  destruct fuel as [|fuel]; [done|].
  intros Hrun.
  destruct (sync_folders_calm _ _ _ _ _ _ Hc Hrun) as (Hc' & Hp & Hall).
  split; [done|]. split; [|done].
  destruct (first_match_stays _ _ _ _ _ E Hp) as [rest' E'].
  by exists d, rest'.
Qed.

(** X16: after a run that returns while Drive answers, Drive has the
    top-level folder, and for every selected folder of the listing whose
    videos were listed the first Drive folder of its name holds an item
    [<name>.mp4] for each of its videos. *)
Theorem completed_run_mirrors_listing (out : Outside) (fuel : nat)
    (folders : list Enumerator.Folder) (w w' : World) :
  drive_faults w = [] ->
  main out fuel folders w = (Return tt, w') ->
  Exists (matches (FolderNamed GOOGLE_DRIVE_FOLDER_NAME)) (drive_files w') /\
  Forall (fun f => mirrored out f w') folders.
Proof.
  intros H Hrun.
  destruct (main_calm_mirrors out fuel folders w w' H Hrun)
    as (_ & (top & rest & Etop) & Hall).
  split; [|exact Hall].
  destruct (decide (Exists (matches (FolderNamed GOOGLE_DRIVE_FOLDER_NAME))
                      (drive_files w'))) as [|N]; [done|].
  apply filter_nil_not_exists in N. congruence.
Qed.

Lemma completed_run_mirrors_listing_witness :
  let w' := (main Scenario.outside 2 [Scenario.cse143] Sample.fresh).2 in
  Exists (matches (FolderNamed GOOGLE_DRIVE_FOLDER_NAME)) (drive_files w') /\
  Forall (fun f => mirrored Scenario.outside f w') [Scenario.cse143].
Proof.
  intros w'.
  apply (completed_run_mirrors_listing Scenario.outside 2 [Scenario.cse143]
           Sample.fresh w').
  - reflexivity.
  - vm_compute. reflexivity.
Defined.

Lemma rerun_folders out fuel pid folders :
  forall w,
    drive_faults w = [] ->
    Forall (fun f => mirrored out f w) folders ->
    exists w',
      for_each folders (sync_folder out (S fuel) pid) w = (Return tt, w')
      /\ drive_files w' = drive_files w
      /\ fetched w' = fetched w
      /\ slept w' = slept w.
Proof.
  induction folders as [|f folders IH]; intros w H Hall.
  - by exists w.
  - apply Forall_cons in Hall as [Hm Hall].
    set (w0 := with_folder (Some f) w).
    assert (sync_folder out (S fuel) pid f w = (Return tt, w0)) as Hf.
    { unfold sync_folder, bind at 1, modify. fold w0.
      unfold mirrored in Hm.
      destruct (Enumerator.folder_selected f); [|done].
      unfold bind at 1, lift.
      destruct (Enumerator.get_folder_videos _ _ _) as [[videos|]|e|];
        try done.
      destruct Hm as (d & rest & E & Hs).
      unfold bind, create_folder_if_not_exists, retry.
      rewrite (create_found _ _ _ _ _ w0 d rest) by done.
      by apply sync_videos_stored. }
    destruct (IH w0 H) as (w' & Hr & Hfs & Hd & Hsl).
    { eapply Forall_impl; [exact Hall|]. intros g Hg.
      by apply (mirrored_stays _ _ w). }
    exists w'. cbn [for_each]. unfold bind at 1. by rewrite Hf.
Qed.

(** X17: a second run after one that returned while Drive answered adds
    nothing: it returns, no file is created, nothing is fetched and
    nothing is waited for. *)
Theorem second_run_transfers_nothing (out : Outside) (fuel : nat)
    (folders : list Enumerator.Folder) (w w1 : World) :
  drive_faults w = [] ->
  main out fuel folders w = (Return tt, w1) ->
  exists w2,
    main out fuel folders w1 = (Return tt, w2) /\
    drive_files w2 = drive_files w1 /\
    fetched w2 = fetched w1 /\
    slept w2 = slept w1.
Proof.
  intros H Hrun.
  destruct (main_calm_mirrors _ _ _ _ _ H Hrun)
    as (Hc & (top & rest & E) & Hall).
  destruct fuel as [|fuel]; [done|].
  unfold main, bind, create_folder_if_not_exists, retry.
  rewrite (create_found _ _ _ _ _ w1 top rest) by done.
  by apply rerun_folders.
Qed.

Lemma second_run_transfers_nothing_witness :
  let w1 := (main Scenario.outside 2 [Scenario.cse143] Sample.fresh).2 in
  exists w2,
    main Scenario.outside 2 [Scenario.cse143] w1 = (Return tt, w2) /\
    drive_files w2 = drive_files w1 /\
    fetched w2 = fetched w1 /\
    slept w2 = slept w1.
Proof.
  intros w1.
  apply (second_run_transfers_nothing Scenario.outside 2 [Scenario.cse143]
           Sample.fresh w1).
  - reflexivity.
  - vm_compute. reflexivity.
Defined.

Lemma for_each_app {S A} (xs ys : list A) (body : A -> M S unit) w :
  for_each (xs ++ ys) body w
  = bind (for_each xs body) (fun _ => for_each ys body) w.
Proof.
  revert w. induction xs as [|x xs IH]; intros w; [done|].
  cbn [app for_each]. unfold bind.
  destruct (body x w) as [[[]|e|] w1]; [|done..]. by rewrite IH.
Qed.

(** X18: of two videos of a listing that bear the same name, wherever
    they stand in it, the second is never transferred: while Drive
    answers, the loop does the same with and without it. *)
Theorem same_name_video_is_dropped (out : Outside) (fuel : nat)
    (folder_id : string) (first second : string * string)
    (before between rest : list (string * string)) (w : World) :
  drive_faults w = [] ->
  first.2 = second.2 ->
  for_each (before ++ first :: between ++ second :: rest)
    (sync_video out (S fuel) folder_id) w
  = for_each (before ++ first :: between ++ rest)
      (sync_video out (S fuel) folder_id) w.
Proof.
  intros H Hname.
  change (before ++ first :: between ++ second :: rest)
    with (before ++ (first :: between) ++ second :: rest).
  change (before ++ first :: between ++ rest)
    with (before ++ (first :: between) ++ rest).
  rewrite !(assoc_L (++)), !for_each_app. unfold bind at 1 2.
  destruct (sync_videos_calm out fuel folder_id
              (before ++ first :: between) w H)
    as (o & w1 & Hr & Hc & _ & Hall & _).
  rewrite Hr. destruct o as [[]|e|]; [|done..].
  specialize (Hall eq_refl).
  apply Forall_app in Hall as [_ Hall].
  apply Forall_cons in Hall as [Hs _].
  cbn [for_each]. unfold bind at 1.
  rewrite sync_video_stored; [done|done|]. by rewrite <- Hname.
Qed.

Lemma same_name_video_is_dropped_witness :
  for_each ([] ++ ("https://cdn/a.mp4", "Lecture 2")
               :: [("https://cdn/3.mp4", "Lecture 3")]
               ++ ("https://cdn/b.mp4", "Lecture 2") :: [])
    (sync_video Sample.outside 1 "dst") Scenario.half_done
  = for_each ([] ++ ("https://cdn/a.mp4", "Lecture 2")
                 :: [("https://cdn/3.mp4", "Lecture 3")] ++ [])
      (sync_video Sample.outside 1 "dst") Scenario.half_done.
Proof.
  apply (same_name_video_is_dropped Sample.outside 0 "dst"
           ("https://cdn/a.mp4", "Lecture 2")
           ("https://cdn/b.mp4", "Lecture 2") []
           [("https://cdn/3.mp4", "Lecture 3")] [] Scenario.half_done);
    reflexivity.
Defined.

End Rerun.

(* ===================================================================== *)
(** * The folder filter in the driver *)
(* ===================================================================== *)

Section FolderFilter.
Import PyStr Enumerator Drive Reconciler SyncDriver Mirror.

(** C7: a folder record is selected iff its [SessionCount] is strictly
    positive and the subset flag is off or its name contains [CSE]; a zero
    count excludes it whatever its name.  The driver syncs exactly the
    selected folders: a folder that is not selected is left alone, no
    listing is asked for and Drive is not touched; for a selected folder
    the driver asks for its videos and, when they are listed, resolves
    the destination folder and goes through them, so that (Drive
    answering and every fetch succeeding) the Drive folder of its name
    holds an item for each of them afterwards. *)
Theorem folder_filter_correct (only_cse : bool) (f : Folder) :
  (folder_selected_with only_cse f = true <->
     0 < SessionCount f /\
     (only_cse = false \/
      exists pre post, Name f = pre +:+ "CSE" +:+ post)) /\
  (SessionCount f = 0 -> folder_selected_with only_cse f = false) /\
  (forall out fuel panopto_folder_id w,
     folder_selected_with ONLY_SAVE_CSE_VIDEOS f = false ->
     sync_folder out fuel panopto_folder_id f w =
     (Return tt, with_folder (Some f) w)) /\
  (forall out fuel panopto_folder_id w,
     folder_selected_with ONLY_SAVE_CSE_VIDEOS f = true ->
     sync_folder out fuel panopto_folder_id f w =
     bind (lift (get_folder_videos (Id f) 50 (sessions out)))
       (fun videos =>
          match videos with
          | None => ret tt
          | Some videos =>
              bind (create_folder_if_not_exists out fuel (Name f)
                      (Some panopto_folder_id))
                (fun folder_id =>
                   for_each videos (sync_video out fuel folder_id))
          end)
       (with_folder (Some f) w)) /\
  (forall out fuel panopto_folder_id w videos,
     folder_selected_with ONLY_SAVE_CSE_VIDEOS f = true ->
     get_folder_videos (Id f) 50 (sessions out) = Return (Some videos) ->
     drive_faults w = [] ->
     Forall (fun video => download_error out video.1 = None) videos ->
     exists w' d rest,
       sync_folder out (S fuel) panopto_folder_id f w = (Return tt, w') /\
       filter (matches (FolderNamed (Name f))) (drive_files w') = d :: rest /\
       Forall (fun video => stored (file_id d) video.2 w') videos).
Proof.
  split; [|split; [|split; [|split]]].
  - unfold folder_selected_with.
    rewrite andb_true_iff, orb_true_iff, Z.ltb_lt, negb_true_iff.
    by rewrite contains_occurs.
  - intros H0. unfold folder_selected_with. rewrite H0. done.
  - intros out fuel pid w E.
    unfold sync_folder, folder_selected, bind, modify.
    by rewrite E.
  - intros out fuel pid w E.
    unfold sync_folder, folder_selected, bind at 1, modify.
    by rewrite E.
  - intros out fuel pid w videos E Hlist Hw Hok.
    by apply sync_folder_syncs.
Qed.

(** A selected folder with two recordings, synced into a Drive that holds
    the top-level folder only. *)
Lemma folder_filter_correct_witness :
  exists w' d rest,
    sync_folder Scenario.outside 1 "id-0" Scenario.cse143
      (with_files [folder_file "id-0" "Panopto Videos" []] Sample.fresh)
    = (Return tt, w') /\
    filter (matches (FolderNamed "CSE 143 Au21")) (drive_files w')
    = d :: rest /\
    Forall (fun video => stored (file_id d) video.2 w')
      [("https://cdn/1.mp4", "Lecture 1");
       ("https://cdn/2.mp4", "Lecture 2")].
Proof.
  apply (folder_filter_correct true Scenario.cse143).
  - reflexivity.
  - reflexivity.
  - reflexivity.
  - repeat constructor.
Defined.

End FolderFilter.
